(** * gas_prices: a shallow embedding of [scraper.py]

    The scraper is a linear pipeline: fetch the root page, pull the
    national rows out of an inline script, resolve every state to its
    county rows, and write two CSV files.  This development embeds the
    functions of [scraper.py] and proves (or refutes) the properties the
    specification states about them.

    Conventions.
    - A Python [str] is a [string]; its characters are the code points
      below 256.
    - Library functions the script calls ([str.split], [str.strip],
      [re.search] on the two fixed patterns, [csv.writer]) are embedded
      with the behaviour CPython gives them.
    - The HTML parser, the JSON parser, the network and the clock are
      fields of an environment record. *)

From Stdlib Require Import String Ascii List Bool Arith Lia.
Import ListNotations.

Set Warnings "-register-all".

Local Open Scope string_scope.
Local Open Scope list_scope.

(** ** Characters and strings *)

Module Str.

Definition newline : ascii := "010"%char.
Definition creturn : ascii := "013"%char.
Definition dquote : ascii := "034"%char.
Definition comma : ascii := ","%char.
Definition semicolon : ascii := ";"%char.

(** [str.isspace] on one character, which is also the class [\s] of [re]
    on [str] patterns: tab to carriage return, the four separators
    28..31, the space, NEL and the no-break space. *)
Definition is_space (c : ascii) : bool :=
  let n := nat_of_ascii c in
  ((9 <=? n)%nat && (n <=? 13)%nat) || ((28 <=? n)%nat && (n <=? 32)%nat)
  || (n =? 133)%nat || (n =? 160)%nat.

Fixpoint lstrip (s : string) : string :=
  match s with
  | EmptyString => EmptyString
  | String c s' => if is_space c then lstrip s' else s
  end.

Fixpoint rstrip (s : string) : string :=
  match s with
  | EmptyString => EmptyString
  | String c s' =>
      match rstrip s' with
      | EmptyString => if is_space c then EmptyString else String c EmptyString
      | r => String c r
      end
  end.

(** [s.strip()] *)
Definition strip (s : string) : string := rstrip (lstrip s).

(** [s.split(sep)] for a one-character separator: never empty, one more
    piece than there are separators. *)
Fixpoint split (sep : ascii) (s : string) : list string :=
  match s with
  | EmptyString => [EmptyString]
  | String c s' =>
      if Ascii.eqb c sep then EmptyString :: split sep s'
      else match split sep s' with
           | h :: t => String c h :: t
           | [] => [String c EmptyString]
           end
  end.

(** [xs[:-1]] *)
Definition drop_last {A} (xs : list A) : list A := removelast xs.

(** If [s] starts with [p], what follows [p]. *)
Fixpoint strip_prefix (p s : string) : option string :=
  match p with
  | EmptyString => Some s
  | String a p' =>
      match s with
      | EmptyString => None
      | String b s' => if Ascii.eqb a b then strip_prefix p' s' else None
      end
  end.

Definition starts_with (p s : string) : bool :=
  match strip_prefix p s with Some _ => true | None => false end.

(** [sub in s] *)
Fixpoint contains (sub s : string) : bool :=
  starts_with sub s ||
  match s with
  | EmptyString => false
  | String _ s' => contains sub s'
  end.

(** A greedy [\s*]: the text after the longest run of whitespace. *)
Fixpoint skip_spaces (s : string) : string :=
  match s with
  | EmptyString => EmptyString
  | String c s' => if is_space c then skip_spaces s' else s
  end.

End Str.

(** ** Outcomes: a value or a raised exception *)

Inductive exn : Type :=
| TransportError
| ValueError
| AttributeError
| TypeError
| JSONDecodeError
| FileNotFoundError
| NotADirectoryError
| IsADirectoryError
| FileExistsError
| CsvError.

Inductive outcome (A : Type) : Type :=
| Ok (a : A)
| Raise (e : exn).
Arguments Ok {A} a.
Arguments Raise {A} e.

(** ** The national extractor *)

Module National.
Import Str.

(** The literal tested with [in] before the pattern is tried. *)
Definition marker : string := "iwmparam[0].placestxt".

(** The end of the pattern, a greedy dot-star group followed by a double
    quote, at the start of [s]: the dot does not cross a newline and the
    star is greedy, so the group is what precedes the last double quote
    of the newline-free run [s] starts with. *)
Fixpoint before_last_quote (s : string) : option string :=
  match s with
  | EmptyString => None
  | String c s' =>
      if Ascii.eqb c newline then None
      else match before_last_quote s' with
           | Some t => Some (String c t)
           | None => if Ascii.eqb c dquote then Some EmptyString else None
           end
  end.

(** The pattern of line 51, [iwmparam\[0\].placestxt\s*=\s*] and then
    the dot-star group between double quotes, anchored at the start of
    [s]; the result is group 1.  The unescaped dot before [placestxt]
    takes any character but a newline.  After each [\s*] comes a
    character that is not whitespace, so only the longest run of
    whitespace can lead to a match. *)
Definition placestxt_at (s : string) : option string :=
  match strip_prefix "iwmparam[0]" s with
  | Some (String c r) =>
      if Ascii.eqb c newline then None
      else
        match strip_prefix "placestxt" r with
        | Some r1 =>
            match strip_prefix "=" (skip_spaces r1) with
            | Some r2 =>
                match strip_prefix (String dquote EmptyString) (skip_spaces r2) with
                | Some r3 => before_last_quote r3
                | None => None
                end
            | None => None
            end
        | None => None
        end
  | _ => None
  end.

(** [re.search(pattern, line)]: the match at the leftmost position that
    has one. *)
Fixpoint placestxt_search (line : string) : option string :=
  match placestxt_at line with
  | Some g => Some g
  | None =>
      match line with
      | EmptyString => None
      | String _ rest => placestxt_search rest
      end
  end.

(** Lines 53-54: the stripped group is split on the semicolon and loses
    its last piece; every piece left is stripped, split on the comma and
    loses its last field. *)
Definition rows_of_payload (payload : string) : list (list string) :=
  let raw_data := drop_last (split semicolon (strip payload)) in
  map (fun entry => drop_last (split comma (strip entry))) raw_data.

(** A script tag, as the loop [for line in script] sees it: the strings
    that are its children, in order. *)
Definition script := list string.

(** The inner loop of [get_national_prices] over one script. *)
Fixpoint scan_script (lines : script) : option (list (list string)) :=
  match lines with
  | [] => None
  | line :: rest =>
      if contains marker line then
        match placestxt_search line with
        | Some g => Some (rows_of_payload g)
        | None => scan_script rest
        end
      else scan_script rest
  end.

(** The outer loop, over the scripts in the order given. *)
Fixpoint scan_scripts (scripts : list script) : option (list (list string)) :=
  match scripts with
  | [] => None
  | s :: rest =>
      match scan_script s with
      | Some rows => Some rows
      | None => scan_scripts rest
      end
  end.

(** [get_national_prices(soup)], given the script tags of [soup] in
    document order. *)
Definition get_national_prices (script_tags : list script) : list (list string) :=
  match scan_scripts (rev script_tags) with
  | Some rows => rows
  | None => []
  end.

(** A line the search stops at. *)
Definition hit (line : string) : bool :=
  contains marker line &&
  match placestxt_search line with Some _ => true | None => false end.

Definition rows_of_line (line : string) : list (list string) :=
  match placestxt_search line with
  | Some g => rows_of_payload g
  | None => []
  end.

End National.

(** ** Python values and the run's environment *)

(** What [json.loads] returns.  An object is a [dict]: its items in
    insertion order, the keys distinct. *)
Inductive value : Type :=
| VNone
| VBool (b : bool)
| VNum (literal : string)
| VStr (s : string)
| VList (items : list value)
| VDict (items : list (string * value)).

(** [d.get(key, default)] on the items of a dict. *)
Fixpoint dict_get (items : list (string * value)) (key : string) (default : value) : value :=
  match items with
  | [] => default
  | (k, v) :: rest => if String.eqb k key then v else dict_get rest key default
  end.

(** [d.values()] *)
Definition dict_values (items : list (string * value)) : list value := map snd items.

(** What the run does not control.  [http_get] answers a GET given the
    URLs requested before it; the two [html_] fields are the views of a
    parsed page the script uses: the children of every script tag, and
    the [src] attribute of every script tag, both in document order. *)
Record env : Type := {
  http_get : list string -> string -> outcome string;
  html_scripts : string -> list National.script;
  html_script_srcs : string -> list (option string);
  json_loads : string -> outcome value;
  py_str : value -> string;
  utc_now_isoformat : string
}.

(** ** The file system *)

Module FS.
Import Str.

Definition slash : ascii := "/"%char.

(** A path names a node by its components; empty components (doubled or
    trailing slashes) do not count.  There is one starting directory:
    absolute and relative paths are not told apart, and the names [.]
    and [..] are names like any other. *)
Definition node := list string.

Definition resolve (p : string) : node :=
  filter (fun c => negb (String.eqb c EmptyString)) (split slash p).

Fixpoint node_eqb (a b : node) : bool :=
  match a, b with
  | [], [] => true
  | x :: a', y :: b' => String.eqb x y && node_eqb a' b'
  | _, _ => false
  end.

(** Directories made so far (the starting directory [[]] always exists)
    and regular files with their text. *)
Record filesys : Type := {
  dirs : list node;
  files : list (node * string)
}.

Definition is_dir (fs : filesys) (n : node) : bool :=
  match n with
  | [] => true
  | _ => existsb (node_eqb n) (dirs fs)
  end.

Fixpoint lookup (fl : list (node * string)) (n : node) : option string :=
  match fl with
  | [] => None
  | (k, v) :: rest => if node_eqb k n then Some v else lookup rest n
  end.

Definition is_file (fs : filesys) (n : node) : bool :=
  match lookup (files fs) n with Some _ => true | None => false end.

Fixpoint proper_prefixes (n : node) : list node :=
  match n with
  | [] => []
  | c :: n' => [] :: map (cons c) (proper_prefixes n')
  end.

Definition read_file (fs : filesys) (p : string) : option string :=
  lookup (files fs) (resolve p).

(** [open(p, "w", newline="")], the text written, and the close: the
    parent must be a directory, the node must not be one; nothing is
    translated on the way out. *)
Definition write_file (fs : filesys) (p : string) (text : string) : outcome filesys :=
  let n := resolve p in
  match n with
  | [] => Raise (if String.eqb p EmptyString then FileNotFoundError else IsADirectoryError)
  | _ =>
      if is_dir fs n then Raise IsADirectoryError
      else if existsb (is_file fs) (proper_prefixes n) then Raise NotADirectoryError
      else if is_dir fs (removelast n) then
        Ok {| dirs := dirs fs; files := (n, text) :: files fs |}
      else Raise FileNotFoundError
  end.

(** [os.mkdir] of every missing prefix of [n], shortest first; [done] is
    the prefix already walked. *)
Fixpoint mkdirs_from (fs : filesys) (done rest : node) : outcome filesys :=
  match rest with
  | [] => Ok fs
  | c :: rest' =>
      let d := done ++ [c] in
      if is_file fs d then
        Raise (match rest' with [] => FileExistsError | _ => NotADirectoryError end)
      else if is_dir fs d then mkdirs_from fs d rest'
      else mkdirs_from {| dirs := d :: dirs fs; files := files fs |} d rest'
  end.

(** [os.makedirs(p, exist_ok=True)] *)
Definition makedirs (fs : filesys) (p : string) : outcome filesys :=
  if String.eqb p EmptyString then Raise FileNotFoundError
  else mkdirs_from fs [] (resolve p).

(** [p[:p.rfind("/") + 1]] *)
Fixpoint upto_last_slash (p : string) : string :=
  match p with
  | EmptyString => EmptyString
  | String c p' =>
      match upto_last_slash p' with
      | EmptyString => if Ascii.eqb c slash then String c EmptyString else EmptyString
      | h => String c h
      end
  end.

Fixpoint rstrip_slashes (s : string) : string :=
  match s with
  | EmptyString => EmptyString
  | String c s' =>
      match rstrip_slashes s' with
      | EmptyString => if Ascii.eqb c slash then EmptyString else String c EmptyString
      | r => String c r
      end
  end.

(** [os.path.dirname(p)] of [posixpath]: a head of slashes only is kept,
    any other head loses its trailing slashes. *)
Definition dirname (p : string) : string :=
  let head := upto_last_slash p in
  match rstrip_slashes head with
  | EmptyString => head
  | stripped => stripped
  end.

End FS.

(** ** The run's state and its monad *)

Record world : Type := {
  requests : list string;
  disk : FS.filesys;
  stdout : list string
}.

Definition M (A : Type) : Type := world -> outcome A * world.

Definition ret {A} (a : A) : M A := fun w => (Ok a, w).

Definition raise {A} (e : exn) : M A := fun w => (Raise e, w).

Definition bind {A B} (m : M A) (k : A -> M B) : M B :=
  fun w =>
    match m w with
    | (Ok a, w') => k a w'
    | (Raise e, w') => (Raise e, w')
    end.

Definition lift {A} (o : outcome A) : M A := fun w => (o, w).

Notation "x <- m ;; k" := (bind m (fun x => k))
  (at level 61, m at next level, right associativity).
Notation "m ;;; k" := (bind m (fun _ => k))
  (at level 61, right associativity).

(** [session.get(url).text]: the request is made, then it answers or
    raises. *)
Definition GET (E : env) (url : string) : M string :=
  fun w =>
    (http_get E (requests w) url,
     {| requests := requests w ++ [url]; disk := disk w; stdout := stdout w |}).

Definition print (line : string) : M unit :=
  fun w =>
    (Ok tt, {| requests := requests w; disk := disk w; stdout := stdout w ++ [line] |}).

Definition on_disk (f : FS.filesys -> outcome FS.filesys) : M unit :=
  fun w =>
    match f (disk w) with
    | Ok fs' => (Ok tt, {| requests := requests w; disk := fs'; stdout := stdout w |})
    | Raise e => (Raise e, w)
    end.

(** ** The state resolver *)

Module State.
Import Str.

(** The pattern of line 86, a literal, searched in a [src] attribute. *)
Definition map_script_name : string := "premiumhtml5map_js_data".

(** [soup.find("script", src=re.compile(...))]: the first script tag
    that has a [src] the pattern is found in; the result is that [src]
    (line 91 reads it back). *)
Fixpoint find_map_script (srcs : list (option string)) : option string :=
  match srcs with
  | [] => None
  | Some src :: rest =>
      if contains map_script_name src then Some src else find_map_script rest
  | None :: rest => find_map_script rest
  end.

(** The end of the pattern of line 97, a comma, [\s*] and [groups], at
    the start of [s]. *)
Definition groups_follow (s : string) : bool :=
  match strip_prefix "," s with
  | Some r => starts_with "groups" (skip_spaces r)
  | None => false
  end.

(** The lazy dot-star of the group: the shortest newline-free text after
    which [groups_follow]. *)
Fixpoint lazy_body (s : string) : option string :=
  if groups_follow s then Some EmptyString
  else match s with
       | EmptyString => None
       | String c s' =>
           if Ascii.eqb c newline then None
           else match lazy_body s' with
                | Some t => Some (String c t)
                | None => None
                end
       end.

(** The pattern [map_data\s*:\s*] then a group that opens with a brace
    and runs lazily up to [,\s*groups], anchored at the start of [s];
    the result is group 1. *)
Definition map_data_at (s : string) : option string :=
  match strip_prefix "map_data" s with
  | Some r =>
      match strip_prefix ":" (skip_spaces r) with
      | Some r1 =>
          match strip_prefix "{" (skip_spaces r1) with
          | Some r2 =>
              match lazy_body r2 with
              | Some t => Some (String "{"%char t)
              | None => None
              end
          | None => None
          end
      | None => None
      end
  | None => None
  end.

(** [re.search] of that pattern in a line. *)
Fixpoint map_data_search (line : string) : option string :=
  match map_data_at line with
  | Some g => Some g
  | None =>
      match line with
      | EmptyString => None
      | String _ rest => map_data_search rest
      end
  end.

(** Lines 94-100 from the second line on: the first line that contains
    [map_data] and matches decides; with none, [map_data] keeps the
    empty dict it was initialised with. *)
Fixpoint scan_map_data (E : env) (lines : list string) : outcome value :=
  match lines with
  | [] => Ok (VDict [])
  | line :: rest =>
      if contains "map_data" line then
        match map_data_search line with
        | Some g => json_loads E (strip g)
        | None => scan_map_data E rest
        end
      else scan_map_data E rest
  end.

Definition load_map_data (E : env) (text : string) : outcome value :=
  scan_map_data E (split newline (strip text)).

(** One pass of the loop of lines 102-110: [county.get] needs a dict. *)
Definition county_row (state_abbr state_name : string) (county : value)
  : outcome (list value) :=
  match county with
  | VDict fields =>
      Ok [VStr state_abbr; VStr state_name;
          dict_get fields "name" (VStr ""); dict_get fields "comment" (VStr "")]
  | _ => Raise AttributeError
  end.

Fixpoint county_loop (state_abbr state_name : string) (counties : list value)
  : outcome (list (list value)) :=
  match counties with
  | [] => Ok []
  | county :: rest =>
      match county_row state_abbr state_name county with
      | Ok row =>
          match county_loop state_abbr state_name rest with
          | Ok rows => Ok (row :: rows)
          | Raise e => Raise e
          end
      | Raise e => Raise e
      end
  end.

(** Lines 102-110: [map_data.values()] needs a dict too. *)
Definition county_rows (state_abbr state_name : string) (map_data : value)
  : outcome (list (list value)) :=
  match map_data with
  | VDict items => county_loop state_abbr state_name (dict_values items)
  | _ => Raise AttributeError
  end.

(** Line 78, [state_abbr, state_name, *_, state_url = state_data]: three
    names to fill, so at least three fields. *)
Definition unpack (state_data : list string) : outcome (string * string * string) :=
  match state_data with
  | state_abbr :: state_name :: rest =>
      match rest with
      | [] => Raise ValueError
      | _ => Ok (state_abbr, state_name, last rest EmptyString)
      end
  | _ => Raise ValueError
  end.

(** The loop of lines 74-110; [all_prices] is the list built so far. *)
Fixpoint state_loop (E : env) (national_prices : list (list string))
    (all_prices : list (list value)) : M (list (list value)) :=
  match national_prices with
  | [] => ret all_prices
  | state_data :: rest =>
      if (length state_data <? 4)%nat then state_loop E rest all_prices
      else
        fields <- lift (unpack state_data) ;;
        let '(state_abbr, state_name, state_url) := fields in
        if String.eqb state_abbr "DC" then state_loop E rest all_prices
        else
          page <- GET E state_url ;;
          match find_map_script (html_script_srcs E page) with
          | None => state_loop E rest all_prices
          | Some data_url =>
              text <- GET E data_url ;;
              map_data <- lift (load_map_data E text) ;;
              rows <- lift (county_rows state_abbr state_name map_data) ;;
              state_loop E rest (all_prices ++ rows)
          end
  end.

Definition get_state_prices (E : env) (national_prices : list (list string))
  : M (list (list value)) :=
  state_loop E national_prices [].

End State.

(** ** The writer, and the reader that reads its files back *)

Module Csv.
Import Str.

(** The text [csv.writer] writes for one cell: a [str] as it is, [None]
    as nothing, anything else through [str()]. *)
Definition field_text (E : env) (v : value) : string :=
  match v with
  | VStr s => s
  | VNone => EmptyString
  | _ => py_str E v
  end.

(** The default dialect: comma, double quote, minimal quoting, doubled
    quotes, CR LF after every record.  A character that forces the
    quotes: *)
Definition must_quote (c : ascii) : bool :=
  Ascii.eqb c comma || Ascii.eqb c dquote || Ascii.eqb c creturn || Ascii.eqb c newline.

Fixpoint needs_quotes (f : string) : bool :=
  match f with
  | EmptyString => false
  | String c f' => must_quote c || needs_quotes f'
  end.

Fixpoint double_quotes (f : string) : string :=
  match f with
  | EmptyString => EmptyString
  | String c f' =>
      if Ascii.eqb c dquote then String c (String c (double_quotes f'))
      else String c (double_quotes f')
  end.

Definition quoted (f : string) : string :=
  String dquote (double_quotes f ++ String dquote EmptyString)%string.

Definition join_append (f : string) : string :=
  if needs_quotes f then quoted f else f.

Fixpoint join_fields (fs : list string) : string :=
  match fs with
  | [] => EmptyString
  | f :: rest =>
      match rest with
      | [] => join_append f
      | _ => (join_append f ++ String comma (join_fields rest))%string
      end
  end.

Definition lineterminator : string := String creturn (String newline EmptyString).

(** [writer.writerow]: a record that has a field and still no text (its
    one field is empty) is written as a pair of quotes. *)
Definition writerow (fs : list string) : string :=
  let rec := join_fields fs in
  let rec' :=
    match fs with
    | [] => rec
    | _ => if String.eqb rec EmptyString then quoted EmptyString else rec
    end in
  (rec' ++ lineterminator)%string.

Fixpoint writerows (rows : list (list string)) : string :=
  match rows with
  | [] => EmptyString
  | r :: rest => (writerow r ++ writerows rest)%string
  end.

(** The lines of a text file opened with [newline=""]: a line ends after
    LF, after CR LF, or after a CR that no LF follows, and keeps its
    ending. *)
Fixpoint file_lines (s : string) : list string :=
  match s with
  | EmptyString => []
  | String c s' =>
      if Ascii.eqb c newline then String c EmptyString :: file_lines s'
      else if Ascii.eqb c creturn then
        match s' with
        | String d s'' =>
            if Ascii.eqb d newline
            then String c (String d EmptyString) :: file_lines s''
            else String c EmptyString :: file_lines s'
        | EmptyString => [String c EmptyString]
        end
      else
        match file_lines s' with
        | l :: ls => String c l :: ls
        | [] => [String c EmptyString]
        end
  end.

(** The states of [csv.reader] the default dialect can reach (it has no
    escape character). *)
Inductive parser_state : Type :=
| START_RECORD
| START_FIELD
| IN_FIELD
| IN_QUOTED_FIELD
| QUOTE_IN_QUOTED_FIELD
| EAT_CRNL.

Record reader : Type := {
  state : parser_state;
  fields : list string;
  field : string
}.

Definition parse_reset : reader :=
  {| state := START_RECORD; fields := []; field := EmptyString |}.

Definition set_state (r : reader) (st : parser_state) : reader :=
  {| state := st; fields := fields r; field := field r |}.

Definition parse_add_char (r : reader) (c : ascii) : reader :=
  {| state := state r; fields := fields r;
     field := (field r ++ String c EmptyString)%string |}.

Definition parse_save_field (r : reader) : reader :=
  {| state := state r; fields := fields r ++ [field r]; field := EmptyString |}.

Definition is_eol (c : ascii) : bool := Ascii.eqb c newline || Ascii.eqb c creturn.

(** [START_FIELD], which [START_RECORD] falls into on an ordinary
    character. *)
Definition start_field (r : reader) (c : ascii) : reader :=
  if is_eol c then set_state (parse_save_field r) EAT_CRNL
  else if Ascii.eqb c dquote then set_state r IN_QUOTED_FIELD
  else if Ascii.eqb c comma then parse_save_field (set_state r START_FIELD)
  else set_state (parse_add_char r c) IN_FIELD.

(** [parse_process_char]; [None] is the end-of-line signal the reader
    sends after the characters of every line. *)
Definition parse_process_char (r : reader) (c : option ascii) : outcome reader :=
  match state r, c with
  | START_RECORD, None => Ok r
  | START_RECORD, Some c =>
      if is_eol c then Ok (set_state r EAT_CRNL) else Ok (start_field r c)
  | START_FIELD, None => Ok (set_state (parse_save_field r) START_RECORD)
  | START_FIELD, Some c => Ok (start_field r c)
  | IN_FIELD, None => Ok (set_state (parse_save_field r) START_RECORD)
  | IN_FIELD, Some c =>
      if is_eol c then Ok (set_state (parse_save_field r) EAT_CRNL)
      else if Ascii.eqb c comma then Ok (set_state (parse_save_field r) START_FIELD)
      else Ok (parse_add_char r c)
  | IN_QUOTED_FIELD, None => Ok r
  | IN_QUOTED_FIELD, Some c =>
      if Ascii.eqb c dquote then Ok (set_state r QUOTE_IN_QUOTED_FIELD)
      else Ok (parse_add_char r c)
  | QUOTE_IN_QUOTED_FIELD, None => Ok (set_state (parse_save_field r) START_RECORD)
  | QUOTE_IN_QUOTED_FIELD, Some c =>
      if Ascii.eqb c dquote then Ok (set_state (parse_add_char r c) IN_QUOTED_FIELD)
      else if Ascii.eqb c comma then Ok (set_state (parse_save_field r) START_FIELD)
      else if is_eol c then Ok (set_state (parse_save_field r) EAT_CRNL)
      else Ok (set_state (parse_add_char r c) IN_FIELD)
  | EAT_CRNL, None => Ok (set_state r START_RECORD)
  | EAT_CRNL, Some c => if is_eol c then Ok r else Raise CsvError
  end.

(** The characters of one line. *)
Fixpoint feed (r : reader) (line : string) : outcome reader :=
  match line with
  | EmptyString => Ok r
  | String c rest =>
      match parse_process_char r (Some c) with
      | Ok r' => feed r' rest
      | Raise e => Raise e
      end
  end.

Definition at_start (r : reader) : bool :=
  match state r with START_RECORD => true | _ => false end.

Definition in_quotes (r : reader) : bool :=
  match state r with IN_QUOTED_FIELD => true | _ => false end.

(** What the reader yields when the lines run out. *)
Definition at_end_of_input (r : reader) : list (list string) :=
  if negb (String.eqb (field r) EmptyString) || in_quotes r
  then [fields (parse_save_field r)]
  else [].

(** All the records of [csv.reader] over the lines: [Reader_iternext]
    takes lines until one leaves it in [START_RECORD], yields the
    fields, and starts afresh. *)
Fixpoint read_records (r : reader) (lines : list string) : outcome (list (list string)) :=
  match lines with
  | [] => Ok (at_end_of_input r)
  | line :: rest =>
      match feed r line with
      | Raise e => Raise e
      | Ok r1 =>
          match parse_process_char r1 None with
          | Raise e => Raise e
          | Ok r2 =>
              if at_start r2 then
                match read_records parse_reset rest with
                | Ok rows => Ok (fields r2 :: rows)
                | Raise e => Raise e
                end
              else read_records r2 rest
          end
      end
  end.

(** [list(csv.reader(f))] for the file text [text]. *)
Definition read_csv (text : string) : outcome (list (list string)) :=
  read_records parse_reset (file_lines text).

End Csv.

(** ** The writer and the run *)

(** [save_prices_to_csv(filename, data)] *)
Definition save_prices_to_csv (E : env) (filename : string) (data : list (list value))
  : M unit :=
  on_disk (fun fs =>
    FS.write_file fs filename (Csv.writerows (map (map (Csv.field_text E)) data))).

Record args : Type := {
  debug : bool;
  filepath : string
}.

Definition base_url : string := "https://gasprices.aaa.com".

(** The county rows of a run hold Python values; the national rows are
    rows of [str]. *)
Definition as_values (rows : list (list string)) : list (list value) :=
  map (map VStr) rows.

(** Lines 135-139: everything the run fetches and parses. *)
Definition fetch_and_parse (E : env)
  : M (list (list string) * list (list value)) :=
  page <- GET E base_url ;;
  let national_prices := National.get_national_prices (html_scripts E page) in
  state_prices <- State.get_state_prices E national_prices ;;
  ret (national_prices, state_prices).

(** Lines 141-151: the directories, then the two files. *)
Definition write_outputs (E : env) (a : args)
    (prices : list (list string) * list (list value)) : M unit :=
  let base_path := filepath a in
  let national_path := (base_path ++ "/national/")%string in
  let state_path := (base_path ++ "/states/")%string in
  print (FS.dirname national_path) ;;;
  on_disk (fun fs => FS.makedirs fs (FS.dirname national_path)) ;;;
  on_disk (fun fs => FS.makedirs fs (FS.dirname state_path)) ;;;
  let timestamp := utc_now_isoformat E in
  save_prices_to_csv E (national_path ++ "/" ++ timestamp ++ ".csv")%string
    (as_values (fst prices)) ;;;
  save_prices_to_csv E (state_path ++ "/" ++ timestamp ++ ".csv")%string (snd prices).

(** [main()], the logging and the stopwatch left out. *)
Definition main (E : env) (a : args) : M unit :=
  prices <- fetch_and_parse E ;;
  write_outputs E a prices.

(** * Properties *)

(** Unfolds the monad's operations and projects the worlds they build. *)
Ltac run_monad :=
  unfold bind, lift, ret, raise, GET, print, on_disk in *;
  cbn [requests disk stdout fst snd] in *.

(** ** Strings *)

Section StringFacts.
Import Str.

Lemma split_not_nil (sep : ascii) (s : string) : split sep s <> [].
Proof.
  destruct s as [|c s]; simpl; [discriminate|].
  destruct (Ascii.eqb c sep); [discriminate|].
  destruct (split sep s); discriminate.
Qed.

(** Splitting a text that ends with the separator gives the pieces of
    what precedes it and one empty piece. *)
Lemma split_trailing_sep (sep : ascii) (s : string) :
  split sep (s ++ String sep EmptyString)%string = split sep s ++ [EmptyString].
Proof.
  induction s as [|c s IH]; simpl.
  - now rewrite Ascii.eqb_refl.
  - destruct (Ascii.eqb c sep); [now rewrite IH|].
    rewrite IH. destruct (split sep s) as [|h t] eqn:Hs; [|reflexivity].
    now apply split_not_nil in Hs.
Qed.

Lemma drop_last_split_trailing_sep (sep : ascii) (s : string) :
  drop_last (split sep (s ++ String sep EmptyString)%string) = split sep s.
Proof.
  unfold drop_last. rewrite split_trailing_sep. apply removelast_last.
Qed.

End StringFacts.

(** ** The national extractor *)

Section NationalFacts.
Import Str National.

(** No double quote and no newline in [s]. *)
Fixpoint quote_free (s : string) : bool :=
  match s with
  | EmptyString => true
  | String c s' =>
      negb (Ascii.eqb c dquote) && negb (Ascii.eqb c newline) && quote_free s'
  end.

(** The script statement [iwmparam[0].placestxt = <dq>payload<dq>;]. *)
Definition marker_line (payload : string) : string :=
  (marker ++ " = " ++ String dquote (payload ++ String dquote ";"))%string.

Lemma before_last_quote_closing (payload : string) :
  quote_free payload = true ->
  before_last_quote (payload ++ String dquote ";")%string = Some payload.
Proof.
  induction payload as [|c p IH]; simpl; [reflexivity|].
  intro H. apply andb_prop in H as [H Hp]. apply andb_prop in H as [Hq Hn].
  apply negb_true_iff in Hq, Hn.
  rewrite Hn, (IH Hp). reflexivity.
Qed.

Lemma placestxt_search_marker_line (payload : string) :
  quote_free payload = true ->
  placestxt_search (marker_line payload) = Some payload.
Proof.
  intro H. unfold marker_line, marker. simpl.
  unfold placestxt_at. simpl.
  now rewrite (before_last_quote_closing payload H).
Qed.

Lemma contains_marker_line (payload : string) :
  contains marker (marker_line payload) = true.
Proof. reflexivity. Qed.

Lemma scan_script_find (lines : script) :
  scan_script lines = option_map rows_of_line (find hit lines).
Proof.
  induction lines as [|l ls IH]; simpl; [reflexivity|].
  unfold hit. destruct (contains marker l); simpl; [|exact IH].
  destruct (placestxt_search l) eqn:Hl; simpl; [|exact IH].
  unfold rows_of_line. now rewrite Hl.
Qed.

Lemma find_app {A} (f : A -> bool) (xs ys : list A) :
  find f (xs ++ ys) = match find f xs with Some x => Some x | None => find f ys end.
Proof.
  induction xs as [|x xs IH]; simpl; [reflexivity|].
  destruct (f x); [reflexivity|exact IH].
Qed.

Lemma scan_scripts_find (scripts : list script) :
  scan_scripts scripts = option_map rows_of_line (find hit (concat scripts)).
Proof.
  induction scripts as [|s ss IH]; simpl; [reflexivity|].
  rewrite find_app, scan_script_find.
  destruct (find hit s); simpl; [reflexivity|exact IH].
Qed.

Lemma get_national_prices_find (script_tags : list script) :
  get_national_prices script_tags =
    match find hit (concat (rev script_tags)) with
    | Some line => rows_of_line line
    | None => []
    end.
Proof.
  unfold get_national_prices. rewrite scan_scripts_find.
  now destruct (find hit (concat (rev script_tags))).
Qed.

(** The lines in the order the search visits them, around one script. *)
Lemma scan_order (earlier later : list script) (s : script) :
  concat (rev (earlier ++ s :: later))
  = concat (rev later) ++ s ++ concat (rev earlier).
Proof.
  rewrite rev_app_distr. cbn [rev]. rewrite <- app_assoc. cbn [app].
  now rewrite concat_app.
Qed.

Definition al_ak_payload : string :=
  "AL,Alabama,3.10,http://x/al;AK,Alaska,3.50,http://x/ak;".



(** A soup whose only marker line carries the empty payload. *)
Definition empty_payload_soup : list script := [[marker_line ""]].



(** A marker line without the equals sign: the pattern does not match. *)
Definition unmatched_marker_line : string := "// iwmparam[0].placestxt is set below".


End NationalFacts.

(** ** The state resolver *)

Section StateFacts.
Import Str State.

Variable E : env.

(** The loop over a list followed by another is the loop over the first,
    then the loop over the second from where the first stopped. *)
Lemma state_loop_app (xs ys : list (list string)) :
  forall all_prices w,
    state_loop E (xs ++ ys) all_prices w =
    bind (state_loop E xs all_prices) (state_loop E ys) w.
Proof.
  induction xs as [|x xs IH]; intros all_prices w; [reflexivity|].
  cbn [app state_loop].
  destruct (length x <? 4)%nat; [apply IH|].
  run_monad.
  destruct (unpack x) as [[[state_abbr state_name] state_url]|e]; [|reflexivity].
  destruct (String.eqb state_abbr "DC"); [apply IH|].
  run_monad.
  destruct (http_get E (requests w) state_url) as [page|e]; [|reflexivity].
  destruct (find_map_script (html_script_srcs E page)) as [data_url|]; [|apply IH].
  run_monad.
  destruct (http_get E (requests w ++ [state_url]) data_url) as [text|e]; [|reflexivity].
  destruct (load_map_data E text) as [map_data|e]; [|reflexivity].
  destruct (county_rows state_abbr state_name map_data) as [rows|e]; [|reflexivity].
  apply IH.
Qed.

(** The world once [urls] have been requested. *)
Definition requested (w : world) (urls : list string) : world :=
  {| requests := requests w ++ urls; disk := disk w; stdout := stdout w |}.

(** A row the loop passes over leaves no trace, wherever it stands. *)
Lemma state_loop_remove (pre post : list (list string)) (row : list string) :
  (forall all_prices w,
     state_loop E (row :: post) all_prices w = state_loop E post all_prices w) ->
  forall all_prices w,
    state_loop E (pre ++ row :: post) all_prices w =
    state_loop E (pre ++ post) all_prices w.
Proof.
  intros H all_prices w. rewrite !state_loop_app. unfold bind.
  destruct (state_loop E pre all_prices w) as [[a|e] w']; [apply H|reflexivity].
Qed.

Lemma state_loop_short (row : list string) (rest : list (list string)) :
  length row < 4 ->
  forall all_prices w,
    state_loop E (row :: rest) all_prices w = state_loop E rest all_prices w.
Proof.
  intros H all_prices w. cbn [state_loop].
  apply Nat.ltb_lt in H. now rewrite H.
Qed.

Lemma state_loop_dc (fields : list string) (rest : list (list string)) :
  forall all_prices w,
    state_loop E (("DC" :: fields) :: rest) all_prices w =
    state_loop E rest all_prices w.
Proof.
  intros all_prices w. cbn [state_loop].
  destruct (length ("DC" :: fields) <? 4)%nat eqn:Hlen; [reflexivity|].
  destruct fields as [|state_name [|f fields]]; try discriminate Hlen.
  reflexivity.
Qed.

(** The pass for a state whose two requests are answered and whose data
    script parses. *)
Lemma state_loop_resolved (state_data : list string) (rest : list (list string))
    (state_abbr state_name state_url page data_url text : string)
    (map_data : value) (rows all_prices : list (list value)) (w : world) :
  4 <= length state_data ->
  unpack state_data = Ok (state_abbr, state_name, state_url) ->
  state_abbr <> "DC" ->
  http_get E (requests w) state_url = Ok page ->
  find_map_script (html_script_srcs E page) = Some data_url ->
  http_get E (requests w ++ [state_url]) data_url = Ok text ->
  load_map_data E text = Ok map_data ->
  county_rows state_abbr state_name map_data = Ok rows ->
  state_loop E (state_data :: rest) all_prices w =
  state_loop E rest (all_prices ++ rows) (requested w [state_url; data_url]).
Proof.
  intros Hlen Hun Hdc Hpage Hsrc Htext Hmap Hrows. cbn [state_loop].
  apply Nat.ltb_ge in Hlen. rewrite Hlen.
  apply String.eqb_neq in Hdc.
  run_monad. rewrite Hun, Hdc, Hpage, Hsrc.
  run_monad. rewrite Htext, Hmap, Hrows.
  unfold requested. now rewrite <- app_assoc.
Qed.

(** A line of a data script that decides [map_data]. *)
Definition map_hit (line : string) : bool :=
  contains "map_data" line &&
  match map_data_search line with Some _ => true | None => false end.

Lemma scan_map_data_no_hit (lines : list string) :
  (forall line, In line lines -> map_hit line = false) ->
  scan_map_data E lines = Ok (VDict []).
Proof.
  induction lines as [|l ls IH]; intro H; [reflexivity|].
  cbn [scan_map_data].
  pose proof (H l (or_introl eq_refl)) as Hl. unfold map_hit in Hl.
  assert (Hls : scan_map_data E ls = Ok (VDict []))
    by (apply IH; intros x Hx; apply H; now right).
  destruct (contains "map_data" l); [|exact Hls].
  destruct (map_data_search l); [discriminate Hl|exact Hls].
Qed.

(** The row made from one county record. *)
Definition flatten (state_abbr state_name : string) (fields : list (string * value))
  : list value :=
  [VStr state_abbr; VStr state_name;
   dict_get fields "name" (VStr ""); dict_get fields "comment" (VStr "")].

Lemma county_loop_dicts (state_abbr state_name : string)
    (records : list (list (string * value))) :
  county_loop state_abbr state_name (map VDict records)
    = Ok (map (flatten state_abbr state_name) records).
Proof.
  induction records as [|r rs IH]; [reflexivity|].
  cbn [map county_loop county_row]. now rewrite IH.
Qed.

(** Every row of [rows] has four cells and opens with the first two
    fields of [state_data]. *)
Definition rows_of_state (state_data : list string) (rows : list (list value)) : Prop :=
  forall row, In row rows ->
    exists name comment,
      row = [VStr (nth 0 state_data ""); VStr (nth 1 state_data ""); name; comment].

Lemma county_loop_rows (state_abbr state_name : string) (counties : list value) :
  forall rows,
    county_loop state_abbr state_name counties = Ok rows ->
    forall row, In row rows ->
      exists name comment, row = [VStr state_abbr; VStr state_name; name; comment].
Proof.
  induction counties as [|c cs IH]; intros rows H row Hin.
  - injection H as <-. destruct Hin.
  - cbn [county_loop] in H.
    destruct (county_row state_abbr state_name c) as [r|e] eqn:Hr; [|discriminate].
    destruct (county_loop state_abbr state_name cs) as [rs|e]; [|discriminate].
    injection H as <-. destruct Hin as [<-|Hin]; [|now apply (IH rs)].
    destruct c; try discriminate Hr. injection Hr as <-. eauto.
Qed.

Lemma unpack_fields (state_data : list string) (a b c : string) :
  unpack state_data = Ok (a, b, c) ->
  a = nth 0 state_data "" /\ b = nth 1 state_data "".
Proof.
  destruct state_data as [|x [|y [|z t]]]; try discriminate.
  cbn. intro H. injection H as <- <- _. now split.
Qed.

Lemma state_loop_groups (national_prices : list (list string)) :
  forall all_prices w out w',
    state_loop E national_prices all_prices w = (Ok out, w') ->
    exists groups,
      out = all_prices ++ concat groups /\
      Forall2 rows_of_state national_prices groups.
Proof.
  induction national_prices as [|x xs IH]; intros all_prices w out w' H.
  - injection H as <- _. exists []. split; [now rewrite app_nil_r|constructor].
  - cbn [state_loop] in H.
    assert (Hskip : forall w1, state_loop E xs all_prices w1 = (Ok out, w') ->
              exists groups, out = all_prices ++ concat groups /\
                             Forall2 rows_of_state (x :: xs) groups).
    { intros w1 H1. destruct (IH _ _ _ _ H1) as (gs & -> & Hgs).
      exists ([] :: gs). split; [reflexivity|].
      constructor; [intros row []|exact Hgs]. }
    destruct (length x <? 4)%nat; [now apply (Hskip w)|].
    run_monad.
    destruct (unpack x) as [[[state_abbr state_name] state_url]|e] eqn:Hun;
      [|discriminate].
    destruct (String.eqb state_abbr "DC"); [now apply (Hskip w)|].
    run_monad.
    destruct (http_get E (requests w) state_url) as [page|e]; [|discriminate].
    destruct (find_map_script (html_script_srcs E page)) as [data_url|];
      [|now apply Hskip in H].
    run_monad.
    destruct (http_get E (requests w ++ [state_url]) data_url) as [text|e];
      [|discriminate].
    destruct (load_map_data E text) as [map_data|e]; [|discriminate].
    destruct (county_rows state_abbr state_name map_data) as [rows|e] eqn:Hrows;
      [|discriminate].
    destruct (IH _ _ _ _ H) as (gs & -> & Hgs).
    exists (rows :: gs). split; [cbn [concat]; now rewrite app_assoc|].
    constructor; [|exact Hgs].
    destruct (unpack_fields _ _ _ _ Hun) as [-> ->].
    destruct map_data; try discriminate Hrows.
    intros row Hin. exact (county_loop_rows _ _ _ _ Hrows row Hin).
Qed.

End StateFacts.

(** *** Sample sites *)

Section Samples.
Import Str.

Fixpoint assoc_get {A} (l : list (string * A)) (k : string) : option A :=
  match l with
  | [] => None
  | (k', v) :: rest => if String.eqb k' k then Some v else assoc_get rest k
  end.

(** A site that answers the same at every request: the text behind each
    URL, the scripts and the script sources of each page text, and the
    value of each JSON text; every other URL is unreachable and every
    other text is not JSON. *)
Definition static_site (pages : list (string * string))
    (scripts : list (string * list National.script))
    (srcs : list (string * list (option string)))
    (jsons : list (string * value)) : env :=
  {| http_get := fun _ url =>
       match assoc_get pages url with Some t => Ok t | None => Raise TransportError end;
     html_scripts := fun page =>
       match assoc_get scripts page with Some l => l | None => [] end;
     html_script_srcs := fun page =>
       match assoc_get srcs page with Some l => l | None => [] end;
     json_loads := fun text =>
       match assoc_get jsons text with Some v => Ok v | None => Raise JSONDecodeError end;
     py_str := fun _ => EmptyString;
     utc_now_isoformat := "2024-05-01T12:00:00+00:00" |}.

Definition w0 : world :=
  {| requests := []; disk := {| FS.dirs := []; FS.files := [] |}; stdout := [] |}.

(** [s] between double quotes. *)
Definition q (s : string) : string :=
  String dquote (s ++ String dquote EmptyString)%string.

Definition nl : string := String newline EmptyString.

(** The county mapping of the specification's example, as JSON text and
    as the value it parses to. *)
Definition il_json : string :=
  ("{" ++ q "1" ++ ": {" ++ q "name" ++ ": " ++ q "Cook" ++ ", "
       ++ q "comment" ++ ": " ++ q "high" ++ "}, "
       ++ q "2" ++ ": {" ++ q "name" ++ ": " ++ q "Lake" ++ "}}")%string.

Definition il_records : list (list (string * value)) :=
  [[("name", VStr "Cook"); ("comment", VStr "high")]; [("name", VStr "Lake")]].

Definition il_mapping : value :=
  VDict [("1", VDict [("name", VStr "Cook"); ("comment", VStr "high")]);
         ("2", VDict [("name", VStr "Lake")])].

Definition il_row : list string := ["IL"; "Illinois"; "3.89"; "http://x/il"].
Definition il_data_url : string := "http://x/premiumhtml5map_js_data_il.js".
Definition il_data : string :=
  ("var cfg = {" ++ nl ++ "map_data: " ++ il_json ++ ", groups: {}" ++ nl ++ "};")%string.

(** A state whose data script has a line with the marker and no line
    that matches. *)
Definition tx_row : list string := ["TX"; "Texas"; "2.99"; "http://x/tx"].
Definition tx_data_url : string := "http://x/premiumhtml5map_js_data_tx.js".
Definition tx_data : string :=
  ("var cfg = {};" ++ nl ++ "var map_data = null;")%string.

(** The root page: a script that carries three states, five fields
    each. *)
Definition root_payload : string :=
  "TX,Texas,2.99,http://x/tx,0;DC,Washington,3.50,http://x/dc,0;IL,Illinois,3.89,http://x/il,0;".

Definition dc_row : list string := ["DC"; "Washington"; "3.50"; "http://x/dc"].

Definition sample_site : env :=
  static_site
    [(base_url, "<root>");
     ("http://x/il", "<il>"); (il_data_url, il_data);
     ("http://x/tx", "<tx>"); (tx_data_url, tx_data)]
    [("<root>", [["var a = 1;"]; [marker_line root_payload]])]
    [("<il>", [None; Some "http://x/jquery.js"; Some il_data_url]);
     ("<tx>", [Some tx_data_url])]
    [(il_json, il_mapping)].

Definition il_county_rows : list (list value) :=
  [[VStr "IL"; VStr "Illinois"; VStr "Cook"; VStr "high"];
   [VStr "IL"; VStr "Illinois"; VStr "Lake"; VStr ""]].

End Samples.

(** *** The claims on the state resolver *)

Section StateClaims.
Import Str State.

(** C2, as stated, fails: the data script of Texas has no line that
    matches, nothing is raised, Texas gives no row, and the run goes on
    to Illinois. *)
Lemma unmatched_data_script_is_not_an_error :
  (forall line, In line (split newline (strip tx_data)) -> map_hit line = false)
  /\ get_state_prices sample_site [tx_row; il_row] w0
     = (Ok il_county_rows,
        requested w0 ["http://x/tx"; tx_data_url; "http://x/il"; il_data_url]).
Proof.
  split; [|reflexivity].
  intros line [<-|[<-|[]]]; reflexivity.
Qed.

(** C2, amended.  When no line of a state's data script both contains
    [map_data] and matches the pattern, [map_data] stays the empty dict:
    nothing is raised, the state adds no county row, and the loop goes
    on with the next national row. *)
Theorem unmatched_data_script_yields_no_rows (E : env)
    (state_data : list string) (rest : list (list string))
    (state_abbr state_name state_url page data_url text : string)
    (all_prices : list (list value)) (w : world) :
  4 <= length state_data ->
  unpack state_data = Ok (state_abbr, state_name, state_url) ->
  state_abbr <> "DC" ->
  http_get E (requests w) state_url = Ok page ->
  find_map_script (html_script_srcs E page) = Some data_url ->
  http_get E (requests w ++ [state_url]) data_url = Ok text ->
  (forall line, In line (split newline (strip text)) -> map_hit line = false) ->
  load_map_data E text = Ok (VDict [])
  /\ state_loop E (state_data :: rest) all_prices w =
     state_loop E rest all_prices (requested w [state_url; data_url]).
Proof.
  intros Hlen Hun Hdc Hpage Hsrc Htext Hno.
  assert (Hmap : load_map_data E text = Ok (VDict []))
    by (apply scan_map_data_no_hit; exact Hno).
  split; [exact Hmap|].
  rewrite (state_loop_resolved E state_data rest state_abbr state_name state_url
             page data_url text (VDict []) [] all_prices w); auto.
  now rewrite app_nil_r.
Qed.

Lemma unmatched_data_script_yields_no_rows_witness :
  load_map_data sample_site tx_data = Ok (VDict [])
  /\ state_loop sample_site [tx_row; il_row] [] w0 =
     state_loop sample_site [il_row] [] (requested w0 ["http://x/tx"; tx_data_url]).
Proof.
  apply (unmatched_data_script_yields_no_rows sample_site tx_row [il_row]
           "TX" "Texas" "http://x/tx" "<tx>" tx_data_url tx_data [] w0);
    try reflexivity.
  - discriminate.
  - intros line [<-|[<-|[]]]; reflexivity.
Defined.

(** C5.  A national row whose abbreviation is [DC] changes nothing: the
    rows returned and the requests made are those of the run without
    it, whatever the site answers. *)
Theorem dc_exclusion (E : env) (before after : list (list string))
    (fields : list string) (w : world) :
  get_state_prices E (before ++ ("DC" :: fields) :: after) w
  = get_state_prices E (before ++ after) w.
Proof.
  unfold get_state_prices. apply state_loop_remove. apply state_loop_dc.
Qed.

(** C7.  A national row with fewer than four fields is passed over
    before it is unpacked: the run is that of the list without it, so
    it raises nothing and the rows after it are still resolved. *)
Theorem short_row_skip (E : env) (before after : list (list string))
    (row : list string) (w : world) :
  length row < 4 ->
  get_state_prices E (before ++ row :: after) w
  = get_state_prices E (before ++ after) w.
Proof.
  intro H. unfold get_state_prices. apply state_loop_remove.
  now apply state_loop_short.
Qed.

Lemma short_row_skip_witness :
  length ["PR"] < 4 /\
  get_state_prices sample_site ([tx_row] ++ ["PR"] :: [il_row]) w0
  = get_state_prices sample_site ([tx_row] ++ [il_row]) w0.
Proof.
  split; [simpl; lia|].
  apply (short_row_skip sample_site [tx_row] [il_row] ["PR"] w0). simpl; lia.
Defined.

(** C6.  For the state row [IL, Illinois, ...] and the county mapping
    of the example the resolver returns the rows [IL, Illinois, Cook,
    high] and [IL, Illinois, Lake, <empty>].  In general a state whose
    mapping holds the records [records] adds one row per record, in
    order, each [abbr, name, record name or empty, record comment or
    empty]. *)
Theorem county_flattening :
  get_state_prices sample_site [il_row] w0
    = (Ok il_county_rows, requested w0 ["http://x/il"; il_data_url])
  /\ county_rows "IL" "Illinois" il_mapping = Ok il_county_rows
  /\ (forall (E : env) state_data rest state_abbr state_name state_url
        page data_url text items records all_prices w,
        4 <= length state_data ->
        unpack state_data = Ok (state_abbr, state_name, state_url) ->
        state_abbr <> "DC" ->
        http_get E (requests w) state_url = Ok page ->
        find_map_script (html_script_srcs E page) = Some data_url ->
        http_get E (requests w ++ [state_url]) data_url = Ok text ->
        load_map_data E text = Ok (VDict items) ->
        dict_values items = map VDict records ->
        state_loop E (state_data :: rest) all_prices w =
        state_loop E rest
          (all_prices ++ map (flatten state_abbr state_name) records)
          (requested w [state_url; data_url])).
Proof.
  split; [reflexivity|]. split; [reflexivity|].
  intros E state_data rest state_abbr state_name state_url page data_url text
    items records all_prices w Hlen Hun Hdc Hpage Hsrc Htext Hmap Hrec.
  apply (state_loop_resolved E state_data rest state_abbr state_name state_url
           page data_url text (VDict items)); auto.
  cbn [county_rows]. rewrite Hrec. apply county_loop_dicts.
Qed.

Lemma county_flattening_witness :
  state_loop sample_site [il_row] [] w0 =
  state_loop sample_site []
    ([] ++ map (flatten "IL" "Illinois") il_records)
    (requested w0 ["http://x/il"; il_data_url]).
Proof.
  apply (proj2 (proj2 county_flattening) sample_site il_row [] "IL" "Illinois"
           "http://x/il" "<il>" il_data_url il_data
           [("1", VDict [("name", VStr "Cook"); ("comment", VStr "high")]);
            ("2", VDict [("name", VStr "Lake")])]
           il_records [] w0);
    try reflexivity.
  discriminate.
Defined.

(** C9.  The rows a run returns are the concatenation of one group per
    national row, in the order of the national rows; every row of a
    group has four cells, the first two being the first and second
    fields of the group's national row. *)
Theorem state_rows_shape (E : env) (national_prices : list (list string))
    (w w' : world) (out : list (list value)) :
  get_state_prices E national_prices w = (Ok out, w') ->
  exists groups,
    out = concat groups /\ Forall2 rows_of_state national_prices groups.
Proof.
  intro H. destruct (state_loop_groups E national_prices [] w out w' H)
    as (groups & Hout & Hg).
  exists groups. now split.
Qed.

Lemma state_rows_shape_witness :
  exists groups,
    il_county_rows = concat groups /\ Forall2 rows_of_state [tx_row; il_row] groups.
Proof.
  apply (state_rows_shape sample_site [tx_row; il_row] w0
           (requested w0 ["http://x/tx"; tx_data_url; "http://x/il"; il_data_url])
           il_county_rows).
  reflexivity.
Defined.

End StateClaims.

(** ** The writer and the run *)

Section RunFacts.

Variable E : env.

Lemma state_loop_disk (national_prices : list (list string)) :
  forall all_prices w o w',
    State.state_loop E national_prices all_prices w = (o, w') ->
    disk w' = disk w /\ stdout w' = stdout w.
Proof.
  induction national_prices as [|x xs IH]; intros all_prices w o w' H.
  - injection H as _ <-. now split.
  - cbn [State.state_loop] in H.
    destruct (length x <? 4)%nat; [now apply IH in H|].
    run_monad.
    destruct (State.unpack x) as [[[state_abbr state_name] state_url]|e];
      [|injection H as _ <-; now split].
    destruct (String.eqb state_abbr "DC"); [now apply IH in H|].
    run_monad.
    destruct (http_get E (requests w) state_url) as [page|e];
      [|injection H as _ <-; now split].
    destruct (State.find_map_script (html_script_srcs E page)) as [data_url|];
      [|now apply IH in H].
    run_monad.
    destruct (http_get E (requests w ++ [state_url]) data_url) as [text|e];
      [|injection H as _ <-; now split].
    destruct (State.load_map_data E text) as [map_data|e];
      [|injection H as _ <-; now split].
    destruct (State.county_rows state_abbr state_name map_data) as [rows|e];
      [|injection H as _ <-; now split].
    now apply IH in H.
Qed.

(** Fetching and parsing never touch the disk. *)
Lemma fetch_and_parse_disk (w : world) o (w' : world) :
  fetch_and_parse E w = (o, w') -> disk w' = disk w.
Proof.
  unfold fetch_and_parse, State.get_state_prices. intro H. run_monad.
  destruct (http_get E (requests w) base_url) as [page|e];
    [|now injection H as _ <-].
  destruct (State.state_loop E _ [] _) as [[sp|e] w1] eqn:Hloop;
    apply state_loop_disk in Hloop; cbn [disk] in Hloop;
    injection H as _ <-; apply Hloop.
Qed.

Lemma on_disk_requests (f : FS.filesys -> outcome FS.filesys) (w : world) o (w' : world) :
  on_disk f w = (o, w') -> requests w' = requests w.
Proof.
  unfold on_disk. destruct (f (disk w)); intro H; now injection H as _ <-.
Qed.

Lemma bind_requests {A B} (m : M A) (k : A -> M B) :
  (forall w o w', m w = (o, w') -> requests w' = requests w) ->
  (forall a w o w', k a w = (o, w') -> requests w' = requests w) ->
  forall w o w', bind m k w = (o, w') -> requests w' = requests w.
Proof.
  intros Hm Hk w o w'. unfold bind.
  destruct (m w) as [[a|e] w1] eqn:H1; intro H.
  - rewrite (Hk _ _ _ _ H). now apply Hm in H1.
  - injection H as _ <-. now apply Hm in H1.
Qed.

(** Writing the outputs makes no request. *)
Lemma write_outputs_requests (a : args) prices (w : world) o (w' : world) :
  write_outputs E a prices w = (o, w') -> requests w' = requests w.
Proof.
  unfold write_outputs, save_prices_to_csv.
  revert w o w'.
  repeat (apply bind_requests; [|intros _]);
    try (intros w o w'; apply on_disk_requests).
  intros w o w' H. unfold print in H. now injection H as _ <-.
Qed.

Lemma node_eqb_refl (n : FS.node) : FS.node_eqb n n = true.
Proof.
  induction n as [|c n IH]; [reflexivity|].
  cbn. now rewrite String.eqb_refl.
Qed.

(** A write that succeeds found its parent directory and added one
    file; it made no directory. *)
Lemma write_file_ok (fs fs' : FS.filesys) (p text : string) :
  FS.write_file fs p text = Ok fs' ->
  FS.is_dir fs (removelast (FS.resolve p)) = true
  /\ fs' = {| FS.dirs := FS.dirs fs; FS.files := (FS.resolve p, text) :: FS.files fs |}.
Proof.
  unfold FS.write_file.
  destruct (FS.resolve p) as [|c n] eqn:Hn; [discriminate|].
  destruct (FS.is_dir fs (c :: n)); [discriminate|].
  destruct (existsb (FS.is_file fs) (FS.proper_prefixes (c :: n))); [discriminate|].
  destruct (FS.is_dir fs (removelast (c :: n))); [|discriminate].
  intro H. injection H as <-. now split.
Qed.

Lemma write_file_no_parent (fs : FS.filesys) (p text : string) :
  FS.is_dir fs (removelast (FS.resolve p)) = false ->
  exists e, FS.write_file fs p text = Raise e.
Proof.
  unfold FS.write_file. intro H.
  destruct (FS.resolve p) as [|c n] eqn:Hn; [eauto|].
  destruct (FS.is_dir fs (c :: n)); [eauto|].
  destruct (existsb (FS.is_file fs) (FS.proper_prefixes (c :: n))); [eauto|].
  rewrite H. eauto.
Qed.

Lemma save_prices_to_csv_ok (path : string) (data : list (list value)) (w w' : world) :
  save_prices_to_csv E path data w = (Ok tt, w') ->
  FS.is_dir (disk w) (removelast (FS.resolve path)) = true
  /\ FS.dirs (disk w') = FS.dirs (disk w)
  /\ FS.read_file (disk w') path
     = Some (Csv.writerows (map (map (Csv.field_text E)) data)).
Proof.
  unfold save_prices_to_csv, on_disk.
  destruct (FS.write_file (disk w) path _) as [fs'|e] eqn:Hw; [|discriminate].
  apply write_file_ok in Hw as [Hdir ->]. intro H. injection H as <-.
  split; [exact Hdir|]. split; [reflexivity|].
  unfold FS.read_file. cbn. now rewrite node_eqb_refl.
Qed.

Lemma mkdirs_from_is_dir (rest : FS.node) :
  forall fs done fs',
    (rest = [] -> FS.is_dir fs done = true) ->
    FS.mkdirs_from fs done rest = Ok fs' ->
    FS.is_dir fs' (done ++ rest) = true.
Proof.
  induction rest as [|c rest IH]; intros fs done fs' Hdone H.
  - injection H as <-. rewrite app_nil_r. now apply Hdone.
  - cbn [FS.mkdirs_from] in H.
    destruct (FS.is_file fs (done ++ [c])); [discriminate|].
    replace (done ++ c :: rest) with ((done ++ [c]) ++ rest)
      by now rewrite <- app_assoc.
    destruct (FS.is_dir fs (done ++ [c])) eqn:Hd.
    + exact (IH fs (done ++ [c]) fs' (fun _ => Hd) H).
    + apply (IH {| FS.dirs := (done ++ [c]) :: FS.dirs fs; FS.files := FS.files fs |}
               (done ++ [c]) fs'); [intros _|exact H].
      unfold FS.is_dir. destruct (done ++ [c]) as [|x n] eqn:Hx; [reflexivity|].
      cbn. now rewrite String.eqb_refl, node_eqb_refl.
Qed.

(** After [os.makedirs(p)] the directory is there. *)
Lemma makedirs_is_dir (fs fs' : FS.filesys) (p : string) :
  FS.makedirs fs p = Ok fs' -> FS.is_dir fs' (FS.resolve p) = true.
Proof.
  unfold FS.makedirs. destruct (String.eqb p ""); [discriminate|].
  intro H. apply (mkdirs_from_is_dir _ fs [] fs'); auto.
Qed.

End RunFacts.

(** *** The claims on the writer and on the run *)

Section RunClaims.

Definition default_args : args := {| debug := false; filepath := "prices/" |}.

Definition national_csv_path : string :=
  "prices//national//2024-05-01T12:00:00+00:00.csv".
Definition states_csv_path : string :=
  "prices//states//2024-05-01T12:00:00+00:00.csv".




(** C4.  A run that stops while it fetches or parses stops [main] with
    the same error and the disk as it was before the run.  And whenever
    a run has changed the disk, fetching and parsing had completed
    first, with the disk still unchanged, and no request was made
    afterwards. *)
Theorem no_output_before_fetching_completes (E : env) (a : args) (w : world) :
  (forall e w1,
     fetch_and_parse E w = (Raise e, w1) ->
     main E a w = (Raise e, w1) /\ disk w1 = disk w)
  /\ (forall o w',
        main E a w = (o, w') ->
        disk w' <> disk w ->
        exists prices w1,
          fetch_and_parse E w = (Ok prices, w1)
          /\ disk w1 = disk w
          /\ requests w' = requests w1).
Proof.
  split.
  - intros e w1 H. split; [|now apply fetch_and_parse_disk in H].
    unfold main, bind. now rewrite H.
  - intros o w' H Hd. unfold main, bind in H.
    destruct (fetch_and_parse E w) as [[prices|e] w1] eqn:Hf.
    + exists prices, w1. split; [reflexivity|].
      split; [now apply fetch_and_parse_disk in Hf|].
      now apply write_outputs_requests in H.
    + injection H as _ <-. apply fetch_and_parse_disk in Hf. congruence.
Qed.

(** A site whose root page is served and whose state pages are not. *)
Definition root_only_site : env :=
  static_site [(base_url, "<root>")]
    [("<root>", [[marker_line root_payload]])] [] [].

Lemma no_output_before_fetching_completes_witness :
  main root_only_site default_args w0
    = (Raise TransportError, requested w0 [base_url; "http://x/tx"])
  /\ disk (requested w0 [base_url; "http://x/tx"]) = disk w0.
Proof.
  apply (proj1 (no_output_before_fetching_completes root_only_site default_args w0)
           TransportError (requested w0 [base_url; "http://x/tx"])).
  reflexivity.
Defined.

End RunClaims.

(** ** The round trip through the writer and the reader *)

Section CsvFacts.
Import Str Csv.

Lemma append_nil_r (s : string) : (s ++ "")%string = s.
Proof. induction s as [|c s IH]; [reflexivity|]. cbn. now rewrite IH. Qed.

Lemma append_assoc (a b c : string) :
  ((a ++ b) ++ c)%string = (a ++ (b ++ c))%string.
Proof. induction a as [|x a IH]; [reflexivity|]. cbn. now rewrite IH. Qed.

(** Whether a line ends after [c], given what follows it in the file. *)
Definition ends_line (c : ascii) (rest : string) : bool :=
  match rest with
  | EmptyString => true
  | String d _ =>
      Ascii.eqb c newline || (Ascii.eqb c creturn && negb (Ascii.eqb d newline))
  end.

Definition yield (fs : list string) (o : outcome (list (list string)))
  : outcome (list (list string)) :=
  match o with
  | Ok rows => Ok (fs :: rows)
  | Raise e => Raise e
  end.

(** The reader run over the text of the file, the lines cut on the
    way. *)
Fixpoint read_chars (r : reader) (s : string) : outcome (list (list string)) :=
  match s with
  | EmptyString => Ok (at_end_of_input r)
  | String c s' =>
      match parse_process_char r (Some c) with
      | Raise e => Raise e
      | Ok r1 =>
          if ends_line c s' then
            match parse_process_char r1 None with
            | Raise e => Raise e
            | Ok r2 =>
                if at_start r2 then yield (fields r2) (read_chars parse_reset s')
                else read_chars r2 s'
            end
          else read_chars r1 s'
      end
  end.

Lemma file_lines_nil (s : string) : file_lines s = [] -> s = EmptyString.
Proof.
  destruct s as [|c s]; [reflexivity|]. cbn.
  destruct (Ascii.eqb c newline); [discriminate|].
  destruct (Ascii.eqb c creturn).
  - destruct s as [|d s]; [discriminate|]. destruct (Ascii.eqb d newline); discriminate.
  - destruct (file_lines s); discriminate.
Qed.

(** Reading a line that has one more character in front. *)
Lemma read_records_cons (r : reader) (c : ascii) (l : string) (ls : list string) :
  read_records r (String c l :: ls) =
  match parse_process_char r (Some c) with
  | Ok r1 => read_records r1 (l :: ls)
  | Raise e => Raise e
  end.
Proof.
  cbn [read_records feed]. now destruct (parse_process_char r (Some c)).
Qed.

Lemma file_lines_cons (c : ascii) (s : string) :
  file_lines (String c s) =
  if Ascii.eqb c newline then String c EmptyString :: file_lines s
  else if Ascii.eqb c creturn then
    match s with
    | String d s' =>
        if Ascii.eqb d newline
        then String c (String d EmptyString) :: file_lines s'
        else String c EmptyString :: file_lines s
    | EmptyString => [String c EmptyString]
    end
  else
    match file_lines s with
    | l :: ls => String c l :: ls
    | [] => [String c EmptyString]
    end.
Proof. reflexivity. Qed.

Lemma read_chars_cons (r : reader) (c : ascii) (s : string) :
  read_chars r (String c s) =
  match parse_process_char r (Some c) with
  | Raise e => Raise e
  | Ok r1 =>
      if ends_line c s then
        match parse_process_char r1 None with
        | Raise e => Raise e
        | Ok r2 =>
            if at_start r2 then yield (fields r2) (read_chars parse_reset s)
            else read_chars r2 s
        end
      else read_chars r1 s
  end.
Proof. reflexivity. Qed.

(** Reading a line that is one character, or two. *)
Lemma read_records_line1 (r : reader) (c : ascii) (ls : list string) :
  read_records r (String c EmptyString :: ls) =
  match parse_process_char r (Some c) with
  | Raise e => Raise e
  | Ok r1 =>
      match parse_process_char r1 None with
      | Raise e => Raise e
      | Ok r2 =>
          if at_start r2 then yield (fields r2) (read_records parse_reset ls)
          else read_records r2 ls
      end
  end.
Proof.
  cbn [read_records feed]. now destruct (parse_process_char r (Some c)).
Qed.

Lemma read_records_file_lines (s : string) :
  (forall r, read_records r (file_lines s) = read_chars r s)
  /\ (forall c r, read_records r (file_lines (String c s)) = read_chars r (String c s)).
Proof.
  induction s as [|d s [IH1 IH2]].
  - split; [reflexivity|]. intros c r. cbn.
    destruct (Ascii.eqb c newline); [|destruct (Ascii.eqb c creturn)];
      cbn; destruct (parse_process_char r (Some c)) as [r1|e]; try reflexivity;
      destruct (parse_process_char r1 None) as [r2|e]; try reflexivity;
      destruct (at_start r2); reflexivity.
  - split; [apply IH2|]. intros c r.
    rewrite (file_lines_cons c (String d s)), (read_chars_cons r c (String d s)).
    cbn [ends_line].
    destruct (Ascii.eqb c newline) eqn:Hn; cbn [orb].
    + rewrite read_records_line1.
      destruct (parse_process_char r (Some c)) as [r1|e]; [|reflexivity].
      destruct (parse_process_char r1 None) as [r2|e]; [|reflexivity].
      now rewrite !IH2.
    + destruct (Ascii.eqb c creturn) eqn:Hc; cbn [andb].
      * destruct (Ascii.eqb d newline) eqn:Hd; cbn [negb].
        -- rewrite read_records_cons.
           destruct (parse_process_char r (Some c)) as [r1|e]; [|reflexivity].
           rewrite read_records_line1, read_chars_cons.
           destruct (parse_process_char r1 (Some d)) as [r2|e]; [|reflexivity].
           assert (He : ends_line d s = true).
           { unfold ends_line. destruct s; [reflexivity|]. now rewrite Hd. }
           rewrite He.
           destruct (parse_process_char r2 None) as [r3|e]; [|reflexivity].
           now rewrite !IH1.
        -- rewrite read_records_line1.
           destruct (parse_process_char r (Some c)) as [r1|e]; [|reflexivity].
           destruct (parse_process_char r1 None) as [r2|e]; [|reflexivity].
           now rewrite !IH2.
      * destruct (file_lines (String d s)) as [|l ls] eqn:Hl;
          [apply file_lines_nil in Hl; discriminate|].
        rewrite read_records_cons.
        destruct (parse_process_char r (Some c)) as [r1|e]; [|reflexivity].
        rewrite <- Hl. apply IH2.
Qed.

Lemma read_csv_read_chars (text : string) :
  read_csv text = read_chars parse_reset text.
Proof. unfold read_csv. apply (proj1 (read_records_file_lines text)). Qed.

(** *** Reading back what the writer wrote *)

Abbreviation R st fs b := {| state := st; fields := fs; field := b |}.

Lemma must_quote_false (c : ascii) :
  must_quote c = false ->
  Ascii.eqb c comma = false /\ Ascii.eqb c dquote = false /\ is_eol c = false.
Proof.
  unfold must_quote, is_eol.
  destruct (Ascii.eqb c comma), (Ascii.eqb c dquote),
    (Ascii.eqb c creturn), (Ascii.eqb c newline); cbn; intro H;
    try discriminate H; auto.
Qed.

Lemma ends_line_false (c d : ascii) (s : string) :
  is_eol c = false -> ends_line c (String d s) = false.
Proof.
  unfold is_eol, ends_line.
  destruct (Ascii.eqb c newline), (Ascii.eqb c creturn); cbn; intro H;
    try discriminate H; reflexivity.
Qed.

(** An unquoted field, character by character. *)
Lemma read_in_field (f : string) :
  forall b fs d tail,
    needs_quotes f = false ->
    read_chars (R IN_FIELD fs b) (f ++ String d tail)%string
    = read_chars (R IN_FIELD fs (b ++ f)%string) (String d tail).
Proof.
  induction f as [|c f IH]; intros b fs d tail H.
  - now rewrite append_nil_r.
  - cbn [needs_quotes] in H. apply orb_false_elim in H as [Hc Hf].
    destruct (must_quote_false c Hc) as (Hcomma & Hq & Heol).
    cbn [append]. rewrite read_chars_cons.
    assert (He : ends_line c (f ++ String d tail)%string = false).
    { destruct f; cbn [append]; now apply ends_line_false. }
    rewrite He. cbn [parse_process_char state]. rewrite Heol, Hcomma.
    unfold parse_add_char. cbn [state fields field].
    rewrite (IH _ fs d tail Hf), append_assoc. reflexivity.
Qed.

(** The inside of a quoted field, up to the closing quote; the line
    ends that fall inside it change nothing. *)
Lemma read_quoted_body (f : string) :
  forall b fs d tail,
    read_chars (R IN_QUOTED_FIELD fs b)
      (double_quotes f ++ String dquote (String d tail))%string
    = read_chars (R QUOTE_IN_QUOTED_FIELD fs (b ++ f)%string) (String d tail).
Proof.
  induction f as [|c f IH]; intros b fs d tail.
  - rewrite append_nil_r. reflexivity.
  - cbn [double_quotes]. destruct (Ascii.eqb c dquote) eqn:Hq.
    + apply Ascii.eqb_eq in Hq. subst c.
      cbn [append]. rewrite read_chars_cons.
      cbn [parse_process_char state ends_line]. rewrite Ascii.eqb_refl.
      cbn [Ascii.eqb orb andb]. unfold set_state. cbn [state fields field].
      replace (Ascii.eqb dquote newline) with false by reflexivity.
      replace (Ascii.eqb dquote creturn) with false by reflexivity.
      cbn [orb andb]. rewrite read_chars_cons.
      cbn [parse_process_char state]. rewrite Ascii.eqb_refl.
      unfold parse_add_char, set_state. cbn [state fields field].
      assert (He : ends_line dquote
                     (double_quotes f ++ String dquote (String d tail))%string = false).
      { destruct (double_quotes f); cbn [append]; now apply ends_line_false. }
      rewrite He, IH, append_assoc. reflexivity.
    + cbn [append]. rewrite read_chars_cons.
      cbn [parse_process_char state]. rewrite Hq.
      unfold parse_add_char. cbn [state fields field].
      destruct (ends_line c _); cbn [parse_process_char state at_start];
        rewrite IH, append_assoc; reflexivity.
Qed.

(** The states a field can end in. *)
Definition after_field (st : parser_state) : bool :=
  match st with
  | START_FIELD | IN_FIELD | QUOTE_IN_QUOTED_FIELD => true
  | _ => false
  end.

Lemma read_comma (st : parser_state) (fs : list string) (b : string)
    (d : ascii) (tail : string) :
  after_field st = true ->
  read_chars (R st fs b) (String comma (String d tail))
  = read_chars (R START_FIELD (fs ++ [b]) "") (String d tail).
Proof.
  intro H. rewrite read_chars_cons.
  rewrite (ends_line_false comma d tail eq_refl).
  destruct st; try discriminate H; reflexivity.
Qed.

Lemma process_creturn (st : parser_state) (fs : list string) (b : string) :
  after_field st = true ->
  parse_process_char (R st fs b) (Some creturn) = Ok (R EAT_CRNL (fs ++ [b]) "").
Proof. destruct st; try discriminate; reflexivity. Qed.

Lemma read_lineterminator (st : parser_state) (fs : list string) (b : string)
    (tail : string) :
  after_field st = true ->
  read_chars (R st fs b) (lineterminator ++ tail)%string
  = yield (fs ++ [b]) (read_chars parse_reset tail).
Proof.
  intro H. unfold lineterminator. cbn [append].
  rewrite read_chars_cons, (process_creturn st fs b H).
  change (ends_line creturn (String newline tail)) with false. cbv iota.
  rewrite read_chars_cons.
  assert (He : ends_line newline tail = true) by (now destruct tail).
  rewrite He. reflexivity.
Qed.

(** One field as the writer wrote it, read from the start of a field. *)
Lemma read_field (f : string) (fs : list string) (d : ascii) (tail : string) :
  exists st,
    after_field st = true /\
    read_chars (R START_FIELD fs "") (join_append f ++ String d tail)%string
    = read_chars (R st fs f) (String d tail).
Proof.
  unfold join_append. destruct (needs_quotes f) eqn:Hq.
  - exists QUOTE_IN_QUOTED_FIELD. split; [reflexivity|].
    unfold quoted. cbn [append]. rewrite append_assoc. cbn [append].
    rewrite read_chars_cons.
    assert (He : ends_line dquote
                   (double_quotes f ++ String dquote (String d tail))%string = false).
    { destruct (double_quotes f); cbn [append]; now apply ends_line_false. }
    rewrite He.
    change (parse_process_char (R START_FIELD fs "") (Some dquote))
      with (Ok (R IN_QUOTED_FIELD fs "")).
    cbv iota. now rewrite read_quoted_body.
  - destruct f as [|c f].
    + exists START_FIELD. now split.
    + exists IN_FIELD. split; [reflexivity|].
      cbn [needs_quotes] in Hq. apply orb_false_elim in Hq as [Hc Hf].
      destruct (must_quote_false c Hc) as (Hcomma & Hdq & Heol).
      cbn [append]. rewrite read_chars_cons.
      assert (He : ends_line c (f ++ String d tail)%string = false).
      { destruct f; cbn [append]; now apply ends_line_false. }
      rewrite He. cbn [parse_process_char state]. unfold start_field.
      rewrite Heol, Hdq, Hcomma.
      unfold parse_add_char, set_state. cbn [state fields field append].
      now rewrite (read_in_field f _ fs d tail Hf).
Qed.

Lemma join_fields_cons (f g : string) (rest : list string) :
  join_fields (f :: g :: rest)
  = (join_append f ++ String comma (join_fields (g :: rest)))%string.
Proof. reflexivity. Qed.

Lemma before_lineterminator (x tail : string) :
  exists d t, (x ++ lineterminator ++ tail)%string = String d t.
Proof. destruct x as [|c x]; cbn; eauto. Qed.

(** The fields of a record and its ending, read from the start of a
    field. *)
Lemma read_fields (rest : list string) :
  forall f saved tail,
    read_chars (R START_FIELD saved "")
      (join_fields (f :: rest) ++ lineterminator ++ tail)%string
    = yield (saved ++ f :: rest) (read_chars parse_reset tail).
Proof.
  induction rest as [|g rest IH]; intros f saved tail.
  - cbn [join_fields].
    change (lineterminator ++ tail)%string with (String creturn (String newline tail)).
    destruct (read_field f saved creturn (String newline tail)) as (st & Hst & ->).
    change (String creturn (String newline tail)) with (lineterminator ++ tail)%string.
    now apply read_lineterminator.
  - rewrite join_fields_cons, append_assoc. cbn [append].
    destruct (read_field f saved comma
                (join_fields (g :: rest) ++ lineterminator ++ tail)%string)
      as (st & Hst & ->).
    destruct (before_lineterminator (join_fields (g :: rest)) tail) as (d & t & Hdt).
    rewrite Hdt, (read_comma st saved f d t Hst), <- Hdt, IH.
    now rewrite <- app_assoc.
Qed.

Lemma read_from_start (fs : list string) (b : string) (c : ascii) (s : string) :
  is_eol c = false ->
  read_chars (R START_RECORD fs b) (String c s)
  = read_chars (R START_FIELD fs b) (String c s).
Proof.
  intro H. rewrite !read_chars_cons. cbn [parse_process_char state].
  now rewrite H.
Qed.

Lemma join_append_head (f : string) (c : ascii) (t : string) :
  join_append f = String c t -> is_eol c = false.
Proof.
  unfold join_append. destruct (needs_quotes f) eqn:Hq.
  - unfold quoted. intro H. now injection H as <- _.
  - intros ->. cbn [needs_quotes] in Hq. apply orb_false_elim in Hq as [Hc _].
    apply (must_quote_false c Hc).
Qed.

Lemma join_fields_head (fs : list string) (c : ascii) (t : string) :
  join_fields fs = String c t -> is_eol c = false.
Proof.
  destruct fs as [|f [|g rest]]; [discriminate| |].
  - apply join_append_head.
  - rewrite join_fields_cons. destruct (join_append f) as [|c' t'] eqn:Hf.
    + cbn [append]. intro H. now injection H as <- _.
    + cbn [append]. intro H. injection H as <- _.
      now apply (join_append_head f c' t').
Qed.

Lemma join_fields_empty (f : string) (rest : list string) :
  join_fields (f :: rest) = EmptyString -> f = EmptyString /\ rest = [].
Proof.
  destruct rest as [|g rest].
  - cbn [join_fields]. unfold join_append.
    destruct (needs_quotes f); [discriminate|]. now intros ->.
  - rewrite join_fields_cons. destruct (join_append f); discriminate.
Qed.

(** One record as [writerow] wrote it. *)
Lemma read_writerow (fs : list string) (tail : string) :
  read_chars parse_reset (writerow fs ++ tail)%string
  = yield fs (read_chars parse_reset tail).
Proof.
  unfold writerow. rewrite append_assoc. destruct fs as [|f rest].
  - cbn [join_fields append]. unfold lineterminator. cbn [append].
    rewrite read_chars_cons.
    change (parse_process_char parse_reset (Some creturn))
      with (Ok (R EAT_CRNL [] "")).
    change (ends_line creturn (String newline tail)) with false. cbv iota.
    rewrite read_chars_cons.
    assert (He : ends_line newline tail = true) by (now destruct tail).
    rewrite He. reflexivity.
  - destruct (join_fields (f :: rest)) as [|c t] eqn:Hj.
    + apply join_fields_empty in Hj as [-> ->].
      cbn [String.eqb]. unfold quoted. cbn [double_quotes append].
      unfold parse_reset. rewrite read_from_start by reflexivity.
      rewrite read_chars_cons.
      change (parse_process_char (R START_FIELD [] "") (Some dquote))
        with (Ok (R IN_QUOTED_FIELD [] "")).
      change (ends_line dquote (String dquote (lineterminator ++ tail))) with false.
      cbv iota.
      change (String dquote (lineterminator ++ tail))
        with (double_quotes "" ++ String dquote (String creturn (String newline tail)))%string.
      rewrite read_quoted_body.
      change (String creturn (String newline tail)) with (lineterminator ++ tail)%string.
      now rewrite read_lineterminator.
    + cbn [String.eqb append].
      unfold parse_reset.
      rewrite read_from_start by (exact (join_fields_head _ _ _ Hj)).
      change (String c (t ++ lineterminator ++ tail))
        with (String c t ++ lineterminator ++ tail)%string.
      rewrite <- Hj. apply read_fields.
Qed.

(** Everything [writerows] wrote. *)
Lemma read_writerows (rows : list (list string)) :
  read_chars parse_reset (writerows rows) = Ok rows.
Proof.
  induction rows as [|r rows IH]; [reflexivity|].
  cbn [writerows]. now rewrite read_writerow, IH.
Qed.

Lemma read_csv_writerows (rows : list (list string)) :
  read_csv (writerows rows) = Ok rows.
Proof. rewrite read_csv_read_chars. apply read_writerows. Qed.

End CsvFacts.

(** *** The claim on the round trip *)

Section RoundTrip.
Import Str Csv.

Lemma field_text_as_values (E : env) (rows : list (list string)) :
  map (map (field_text E)) (as_values rows) = rows.
Proof.
  unfold as_values. rewrite map_map.
  rewrite <- (map_id rows) at 2. apply map_ext. intro r.
  rewrite map_map. rewrite <- (map_id r) at 2. now apply map_ext.
Qed.

(** A disk that has the directory [out]. *)
Definition w_out : world :=
  {| requests := []; disk := {| FS.dirs := [["out"]]; FS.files := [] |}; stdout := [] |}.

(** Rows with a comma, a quote, line ends, an empty field, an empty row. *)
Definition awkward_rows : list (list string) :=
  [["a,b"; q "c"; ""]; []; [""]; [(nl ++ "x" ++ String creturn "y")%string; "z"]].



End RoundTrip.

(** * Further properties of the code *)

(** ** The national extractor: empty results, scan order, shape of the rows *)

Section NationalMore.
Import Str National.

Lemma find_none {A} (f : A -> bool) (xs : list A) :
  (forall x, In x xs -> f x = false) -> find f xs = None.
Proof.
  induction xs as [|x xs IH]; intro H; [reflexivity|].
  cbn [find]. rewrite (H x (or_introl eq_refl)).
  apply IH. intros y Hy. apply H. now right.
Qed.

(** X1.  When no line of any script contains the marker, the extractor
    returns the empty list. *)
Theorem no_marker_no_rows (script_tags : list script) :
  (forall s line, In s script_tags -> In line s -> contains marker line = false) ->
  get_national_prices script_tags = [].
Proof.
  intro H. rewrite get_national_prices_find.
  rewrite find_none; [reflexivity|].
  intros line Hin. apply in_concat in Hin as (s & Hs & Hline).
  apply in_rev in Hs. unfold hit. now rewrite (H s line Hs Hline).
Qed.

Lemma no_marker_no_rows_witness :
  get_national_prices [["var a = 1;"; "var b = 2;"]; []; ["window.onload();"]] = [].
Proof.
  apply no_marker_no_rows.
  intros s line [<-|[<-|[<-|[]]]] Hl; cbn in Hl;
    repeat (destruct Hl as [<-|Hl]; [reflexivity|]); destruct Hl.
Defined.

(** X2.  The last script of the document decides when it has a line that
    contains the marker and matches; the scripts before it count only
    when it has none. *)
Theorem last_script_decides (earlier : list script) (s : script) :
  get_national_prices (earlier ++ [s]) =
    match find hit s with
    | Some line => rows_of_line line
    | None => get_national_prices earlier
    end.
Proof.
  rewrite !get_national_prices_find, scan_order. cbn [rev concat app].
  rewrite find_app. now destruct (find hit s).
Qed.

(** How many times [c] stands in [s]. *)
Fixpoint count_char (c : ascii) (s : string) : nat :=
  match s with
  | EmptyString => 0
  | String d s' => (if Ascii.eqb d c then 1 else 0) + count_char c s'
  end.

Lemma length_split (sep : ascii) (s : string) :
  length (split sep s) = S (count_char sep s).
Proof.
  induction s as [|c s IH]; [reflexivity|].
  cbn [split count_char]. destruct (Ascii.eqb c sep).
  - cbn. now rewrite IH.
  - destruct (split sep s) as [|h t] eqn:Hs; [now apply split_not_nil in Hs|].
    cbn in *. exact IH.
Qed.

Lemma length_drop_last {A} (xs : list A) :
  length (drop_last xs) = pred (length xs).
Proof.
  unfold drop_last. destruct xs as [|x xs] using rev_ind; [reflexivity|].
  rewrite removelast_last, length_app. cbn. lia.
Qed.

(** X3.  The payload gives one row per semicolon of its stripped text,
    and every row has one field per comma of its stripped entry. *)
Theorem rows_of_payload_counts (payload : string) :
  length (rows_of_payload payload) = count_char semicolon (strip payload)
  /\ map (@length string) (rows_of_payload payload)
     = map (fun entry => count_char comma (strip entry))
           (drop_last (split semicolon (strip payload))).
Proof.
  unfold rows_of_payload. split.
  - now rewrite length_map, length_drop_last, length_split.
  - rewrite map_map. apply map_ext. intro entry.
    now rewrite length_drop_last, length_split.
Qed.

Lemma split_piece_no_sep (sep : ascii) (s : string) :
  forall piece, In piece (split sep s) -> count_char sep piece = 0.
Proof.
  induction s as [|c s IH]; intros piece H.
  - destruct H as [<-|[]]. reflexivity.
  - cbn [split] in H. destruct (Ascii.eqb c sep) eqn:Hc.
    + destruct H as [<-|H]; [reflexivity|now apply IH].
    + destruct (split sep s) as [|h t] eqn:Hs; [now apply split_not_nil in Hs|].
      destruct H as [<-|H].
      * cbn [count_char]. rewrite Hc. apply IH. now left.
      * apply IH. now right.
Qed.

Lemma split_piece_within (sep c : ascii) (s : string) :
  forall piece, In piece (split sep s) -> count_char c piece <= count_char c s.
Proof.
  induction s as [|d s IH]; intros piece H.
  - destruct H as [<-|[]]. reflexivity.
  - cbn [split] in H. cbn [count_char]. destruct (Ascii.eqb d sep).
    + destruct H as [<-|H]; [cbn; lia|]. specialize (IH piece H). lia.
    + destruct (split sep s) as [|h t] eqn:Hs; [now apply split_not_nil in Hs|].
      destruct H as [<-|H].
      * cbn [count_char]. specialize (IH h (or_introl eq_refl)). lia.
      * specialize (IH piece (or_intror H)). lia.
Qed.

Lemma count_lstrip (c : ascii) (s : string) :
  count_char c (lstrip s) <= count_char c s.
Proof.
  induction s as [|d s IH]; [reflexivity|].
  cbn [lstrip]. destruct (is_space d); [cbn [count_char]; lia|reflexivity].
Qed.

Lemma count_rstrip (c : ascii) (s : string) :
  count_char c (rstrip s) <= count_char c s.
Proof.
  induction s as [|d s IH]; [reflexivity|].
  cbn [rstrip]. destruct (rstrip s) as [|e r].
  - destruct (is_space d); cbn [count_char] in *; lia.
  - cbn [count_char] in *. lia.
Qed.

Lemma count_strip (c : ascii) (s : string) :
  count_char c (strip s) <= count_char c s.
Proof.
  unfold strip. etransitivity; [apply count_rstrip|apply count_lstrip].
Qed.

Lemma in_drop_last {A} (x : A) (xs : list A) : In x (drop_last xs) -> In x xs.
Proof.
  unfold drop_last. destruct xs as [|y xs] using rev_ind; [trivial|].
  rewrite removelast_last. intro H. apply in_or_app. now left.
Qed.

(** X4.  No field of a national row contains a comma or a semicolon. *)
Theorem national_fields_have_no_separator (payload : string)
    (row : list string) (f : string) :
  In row (rows_of_payload payload) ->
  In f row ->
  count_char comma f = 0 /\ count_char semicolon f = 0.
Proof.
  unfold rows_of_payload. intros Hrow Hf.
  apply in_map_iff in Hrow as (entry & <- & Hentry).
  apply in_drop_last in Hf. apply in_drop_last in Hentry.
  split; [exact (split_piece_no_sep comma _ f Hf)|].
  pose proof (split_piece_within comma semicolon _ f Hf) as H1.
  pose proof (count_strip semicolon entry) as H2.
  pose proof (split_piece_no_sep semicolon _ entry Hentry) as H3.
  lia.
Qed.

Lemma national_fields_have_no_separator_witness :
  count_char comma "Alabama" = 0 /\ count_char semicolon "Alabama" = 0.
Proof.
  apply (national_fields_have_no_separator al_ak_payload ["AL"; "Alabama"; "3.10"]).
  - cbn. now left.
  - cbn. right. now left.
Defined.

End NationalMore.

(** ** The state resolver: what it skips, what stops it, what it requests *)

Section StateMore.
Import Str State.

Variable E : env.

Lemma state_loop_all_short (national_prices : list (list string))
    (all_prices : list (list value)) (w : world) :
  (forall row, In row national_prices -> length row < 4) ->
  state_loop E national_prices all_prices w = (Ok all_prices, w).
Proof.
  induction national_prices as [|x xs IH]; intro H; [reflexivity|].
  rewrite state_loop_short by (apply H; now left).
  apply IH. intros row Hrow. apply H. now right.
Qed.

(** X5.  National rows that all have fewer than four fields resolve to
    nothing: no county row, no request. *)
Theorem short_rows_resolve_nothing (national_prices : list (list string)) (w : world) :
  (forall row, In row national_prices -> length row < 4) ->
  get_state_prices E national_prices w = (Ok [], w).
Proof.
  unfold get_state_prices.
  induction national_prices as [|x xs IH]; intro H; [reflexivity|].
  rewrite state_loop_short by (apply H; now left).
  apply IH. intros row Hrow. apply H. now right.
Qed.

(** X6.  A payload whose entries all have fewer than four commas gives
    national rows the resolver passes over: a state is resolved only
    when its entry has five fields or more. *)
Theorem sparse_payload_resolves_nothing (payload : string) (w : world) :
  (forall entry,
     In entry (drop_last (split semicolon (strip payload))) ->
     count_char comma (strip entry) < 4) ->
  get_state_prices E (National.rows_of_payload payload) w = (Ok [], w).
Proof.
  intro H. apply state_loop_all_short.
  unfold National.rows_of_payload. intros row Hrow.
  apply in_map_iff in Hrow as (entry & <- & Hentry).
  rewrite length_drop_last, length_split. cbn [pred]. now apply H.
Qed.

(** The run over [before] and more rows, once [before] has gone well. *)
Lemma get_state_prices_after (before more : list (list string))
    (rows : list (list value)) (w w1 : world) :
  get_state_prices E before w = (Ok rows, w1) ->
  get_state_prices E (before ++ more) w = state_loop E more rows w1.
Proof.
  unfold get_state_prices. intro H. rewrite state_loop_app. unfold bind.
  now rewrite H.
Qed.

(** The head of a national row that gets past the two tests. *)
Definition resolvable (state_data : list string)
    (state_abbr state_name state_url : string) : Prop :=
  4 <= length state_data
  /\ unpack state_data = Ok (state_abbr, state_name, state_url)
  /\ state_abbr <> "DC".

Ltac enter_state H :=
  destruct H as (Hlen & Hun & Hdc);
  apply Nat.ltb_ge in Hlen; apply String.eqb_neq in Hdc;
  cbn [state_loop]; rewrite Hlen; run_monad; rewrite Hun, Hdc; run_monad.

(** X7.  A state page without a script whose [src] matches is passed
    over after its one request; the loop goes on. *)
Theorem missing_map_script_skips_state (before rest : list (list string))
    (state_data : list string) (state_abbr state_name state_url page : string)
    (rows : list (list value)) (w w1 : world) :
  get_state_prices E before w = (Ok rows, w1) ->
  resolvable state_data state_abbr state_name state_url ->
  http_get E (requests w1) state_url = Ok page ->
  find_map_script (html_script_srcs E page) = None ->
  get_state_prices E (before ++ state_data :: rest) w
  = state_loop E rest rows (requested w1 [state_url]).
Proof.
  intros Hb Hs Hpage Hsrc. rewrite (get_state_prices_after _ _ _ _ _ Hb).
  enter_state Hs. now rewrite Hpage, Hsrc.
Qed.

(** X8.  A state page that cannot be fetched stops the run with the
    error of the request; the rows of the states before it are lost. *)
Theorem unreachable_state_page_aborts (before rest : list (list string))
    (state_data : list string) (state_abbr state_name state_url : string)
    (rows : list (list value)) (w w1 : world) (e : exn) :
  get_state_prices E before w = (Ok rows, w1) ->
  resolvable state_data state_abbr state_name state_url ->
  http_get E (requests w1) state_url = Raise e ->
  get_state_prices E (before ++ state_data :: rest) w
  = (Raise e, requested w1 [state_url]).
Proof.
  intros Hb Hs Hpage. rewrite (get_state_prices_after _ _ _ _ _ Hb).
  enter_state Hs. now rewrite Hpage.
Qed.

(** X9.  A data script that cannot be fetched, or whose captured text
    [json.loads] rejects, stops the run with that error, after the two
    requests of the state. *)
Theorem unusable_data_script_aborts (before rest : list (list string))
    (state_data : list string)
    (state_abbr state_name state_url page data_url : string)
    (rows : list (list value)) (w w1 : world) (e : exn) :
  get_state_prices E before w = (Ok rows, w1) ->
  resolvable state_data state_abbr state_name state_url ->
  http_get E (requests w1) state_url = Ok page ->
  find_map_script (html_script_srcs E page) = Some data_url ->
  (http_get E (requests w1 ++ [state_url]) data_url = Raise e
   \/ exists text,
        http_get E (requests w1 ++ [state_url]) data_url = Ok text
        /\ load_map_data E text = Raise e) ->
  get_state_prices E (before ++ state_data :: rest) w
  = (Raise e, requested w1 [state_url; data_url]).
Proof.
  intros Hb Hs Hpage Hsrc Hfail. rewrite (get_state_prices_after _ _ _ _ _ Hb).
  enter_state Hs. rewrite Hpage, Hsrc. run_monad.
  unfold requested. rewrite <- app_assoc.
  destruct Hfail as [->|(text & -> & ->)]; reflexivity.
Qed.

End StateMore.

Section StateMoreLoops.
Import Str State.

Variable E : env.

Definition is_record (v : value) : bool :=
  match v with VDict _ => true | _ => false end.

Lemma county_loop_not_record (state_abbr state_name : string) (counties : list value) :
  existsb (fun v => negb (is_record v)) counties = true ->
  county_loop state_abbr state_name counties = Raise AttributeError.
Proof.
  induction counties as [|c cs IH]; [discriminate|].
  cbn [existsb county_loop]. destruct c; cbn; try reflexivity.
  intro H. now rewrite (IH H).
Qed.

(** X10.  A county mapping one of whose values is not a record (a
    string, a number, a list, null) makes the resolver raise
    [AttributeError], wherever that value stands. *)
Theorem county_that_is_no_record_raises (state_abbr state_name : string)
    (items : list (string * value)) :
  existsb (fun v => negb (is_record v)) (dict_values items) = true ->
  county_rows state_abbr state_name (VDict items) = Raise AttributeError.
Proof.
  intro H. cbn [county_rows].
  now apply county_loop_not_record.
Qed.

Lemma state_loop_requests (national_prices : list (list string)) :
  forall all_prices w o w',
    state_loop E national_prices all_prices w = (o, w') ->
    exists urls,
      requests w' = requests w ++ urls /\ length urls <= 2 * length national_prices.
Proof.
  induction national_prices as [|x xs IH]; intros all_prices w o w' H.
  - injection H as _ <-. exists []. split; [now rewrite app_nil_r|cbn; lia].
  - assert (Hstay : forall acc, state_loop E xs acc w = (o, w') ->
              exists urls, requests w' = requests w ++ urls
                           /\ length urls <= 2 * length (x :: xs)).
    { intros acc Ha. destruct (IH _ _ _ _ Ha) as (urls & Hu & Hl).
      exists urls. split; [exact Hu|cbn [length]; lia]. }
    assert (Hstop : forall e urls, length urls <= 2 ->
              (o, w') = (Raise e, requested w urls) ->
              exists urls, requests w' = requests w ++ urls
                           /\ length urls <= 2 * length (x :: xs)).
    { intros e urls Hl Hw. injection Hw as _ ->. exists urls.
      split; [reflexivity|cbn [length]; lia]. }
    assert (Hgo : forall acc urls, length urls <= 2 ->
              state_loop E xs acc (requested w urls) = (o, w') ->
              exists urls, requests w' = requests w ++ urls
                           /\ length urls <= 2 * length (x :: xs)).
    { intros acc urls Hl Ha. destruct (IH _ _ _ _ Ha) as (more & Hu & Hm).
      exists (urls ++ more). cbn [requested requests] in Hu.
      split; [now rewrite Hu, app_assoc|rewrite length_app; cbn [length]; lia]. }
    cbn [state_loop] in H.
    destruct (length x <? 4)%nat; [now apply Hstay in H|].
    run_monad.
    destruct (unpack x) as [[[state_abbr state_name] state_url]|e].
    2:{ symmetry in H. apply (Hstop e []); [cbn; lia|].
        rewrite H. unfold requested. now rewrite app_nil_r; destruct w. }
    destruct (String.eqb state_abbr "DC"); [now apply Hstay in H|].
    run_monad.
    destruct (http_get E (requests w) state_url) as [page|e].
    2:{ symmetry in H. apply (Hstop e [state_url]); [cbn; lia|exact H]. }
    destruct (find_map_script (html_script_srcs E page)) as [data_url|].
    2:{ apply (Hgo all_prices [state_url]); [cbn; lia|exact H]. }
    run_monad.
    assert (Hw2 : {| requests := (requests w ++ [state_url]) ++ [data_url];
                     disk := disk w; stdout := stdout w |}
                  = requested w [state_url; data_url])
      by (unfold requested; now rewrite <- app_assoc).
    rewrite Hw2 in H.
    destruct (http_get E (requests w ++ [state_url]) data_url) as [text|e].
    2:{ symmetry in H. apply (Hstop e [state_url; data_url]); [cbn; lia|exact H]. }
    destruct (load_map_data E text) as [map_data|e].
    2:{ symmetry in H. apply (Hstop e [state_url; data_url]); [cbn; lia|exact H]. }
    destruct (county_rows state_abbr state_name map_data) as [rows|e].
    2:{ symmetry in H. apply (Hstop e [state_url; data_url]); [cbn; lia|exact H]. }
    apply (Hgo (all_prices ++ rows) [state_url; data_url]); [cbn; lia|exact H].
Qed.

(** X11.  However it ends, the resolver only adds to the log of
    requests, and it makes at most two requests for each national
    row. *)
Theorem at_most_two_requests_per_state (national_prices : list (list string))
    (w w' : world) (o : outcome (list (list value))) :
  get_state_prices E national_prices w = (o, w') ->
  exists urls,
    requests w' = requests w ++ urls /\ length urls <= 2 * length national_prices.
Proof.
  unfold get_state_prices. intro H.
  exact (state_loop_requests national_prices [] w o w' H).
Qed.

End StateMoreLoops.

Section StateMoreComposition.
Import Str State.

Variable E : env.

(** The rows already collected ride along untouched. *)
Lemma state_loop_acc (national_prices : list (list string)) :
  forall all_prices w,
    state_loop E national_prices all_prices w =
    match state_loop E national_prices [] w with
    | (Ok rows, w') => (Ok (all_prices ++ rows), w')
    | (Raise e, w') => (Raise e, w')
    end.
Proof.
  induction national_prices as [|x xs IH]; intros all_prices w.
  - cbn. now rewrite app_nil_r.
  - cbn [state_loop].
    destruct (length x <? 4)%nat; [apply IH|].
    run_monad.
    destruct (unpack x) as [[[state_abbr state_name] state_url]|e]; [|reflexivity].
    destruct (String.eqb state_abbr "DC"); [apply IH|].
    run_monad.
    destruct (http_get E (requests w) state_url) as [page|e]; [|reflexivity].
    destruct (find_map_script (html_script_srcs E page)) as [data_url|]; [|apply IH].
    run_monad.
    destruct (http_get E (requests w ++ [state_url]) data_url) as [text|e]; [|reflexivity].
    destruct (load_map_data E text) as [map_data|e]; [|reflexivity].
    destruct (county_rows state_abbr state_name map_data) as [rows|e]; [|reflexivity].
    rewrite (IH (all_prices ++ rows)), (IH ([] ++ rows)). cbn [app].
    destruct (state_loop E xs [] _) as [[more|e] w']; [|reflexivity].
    now rewrite app_assoc.
Qed.

(** X12.  Resolving a list of national rows in one run is resolving a
    first part and then the rest from the world the first part left:
    the rows are those of the two runs, in order, and an error of
    either run is the error of the whole. *)
Theorem get_state_prices_app (xs ys : list (list string)) (w : world) :
  get_state_prices E (xs ++ ys) w =
  match get_state_prices E xs w with
  | (Ok rows1, w1) =>
      match get_state_prices E ys w1 with
      | (Ok rows2, w2) => (Ok (rows1 ++ rows2), w2)
      | (Raise e, w2) => (Raise e, w2)
      end
  | (Raise e, w1) => (Raise e, w1)
  end.
Proof.
  unfold get_state_prices. rewrite state_loop_app. unfold bind.
  destruct (state_loop E xs [] w) as [[rows1|e] w1]; [|reflexivity].
  apply state_loop_acc.
Qed.

(** X13.  Only the first line of a data script that contains [map_data]
    and matches is parsed: what [json.loads] makes of its group is the
    mapping (or the error), whatever the lines after it hold. *)
Theorem first_matching_line_decides (text : string)
    (above below : list string) (line group : string) :
  split newline (strip text) = above ++ line :: below ->
  (forall l, In l above -> map_hit l = false) ->
  contains "map_data" line = true ->
  map_data_search line = Some group ->
  load_map_data E text = json_loads E (strip group).
Proof.
  intros Hlines Habove Hc Hs. unfold load_map_data. rewrite Hlines. clear Hlines.
  induction above as [|a above IH]; cbn [app scan_map_data].
  - now rewrite Hc, Hs.
  - pose proof (Habove a (or_introl eq_refl)) as Ha. unfold map_hit in Ha.
    assert (IH' := IH (fun l Hl => Habove l (or_intror Hl))).
    destruct (contains "map_data" a); [|exact IH'].
    destruct (map_data_search a); [discriminate Ha|exact IH'].
Qed.

Lemma rstrip_head (c : ascii) (s : string) :
  is_space c = false -> exists t, rstrip (String c s) = String c t.
Proof.
  intro H. cbn [rstrip]. destruct (rstrip s); [rewrite H|]; eauto.
Qed.

Lemma map_data_at_brace (s g : string) :
  map_data_at s = Some g -> exists t, g = String "{"%char t.
Proof.
  unfold map_data_at.
  destruct (strip_prefix "map_data" s) as [r|]; [|discriminate].
  destruct (strip_prefix ":" (skip_spaces r)) as [r1|]; [|discriminate].
  destruct (strip_prefix "{" (skip_spaces r1)) as [r2|]; [|discriminate].
  destruct (lazy_body r2) as [t|]; [|discriminate].
  intro H. injection H as <-. eauto.
Qed.

(** X14.  The text handed to [json.loads] always opens with a brace:
    the resolver never tries to parse anything but an object. *)
Theorem captured_text_opens_with_brace (line group : string) :
  map_data_search line = Some group ->
  exists t, strip group = String "{"%char t.
Proof.
  induction line as [|c line IH]; cbn [map_data_search].
  - destruct (map_data_at "") as [g|] eqn:Hg; [|discriminate].
    intro H. injection H as <-. apply map_data_at_brace in Hg as (t & ->).
    unfold strip. cbn [lstrip]. replace (is_space "{") with false by reflexivity.
    now apply rstrip_head.
  - destruct (map_data_at (String c line)) as [g|] eqn:Hg; [|exact IH].
    intro H. injection H as <-. apply map_data_at_brace in Hg as (t & ->).
    unfold strip. cbn [lstrip]. replace (is_space "{") with false by reflexivity.
    now apply rstrip_head.
Qed.

End StateMoreComposition.

(** *** Sample runs of the state resolver *)

Section StateMoreSamples.
Import Str State.

(** A Texas page without the map script, and one whose map script is
    not served. *)
Definition no_map_site : env :=
  static_site [("http://x/tx", "<tx>")] []
    [("<tx>", [None; Some "http://x/jquery.js"])] [].

Definition no_data_site : env :=
  static_site [("http://x/tx", "<tx>")] []
    [("<tx>", [Some tx_data_url])] [].

Lemma short_rows_resolve_nothing_witness :
  get_state_prices sample_site [["AL"; "Alabama"; "3.10"]; ["AK"; "Alaska"; "3.50"]] w0
  = (Ok [], w0).
Proof.
  apply short_rows_resolve_nothing.
  intros row [<-|[<-|[]]]; apply Nat.ltb_lt; reflexivity.
Defined.

Lemma sparse_payload_resolves_nothing_witness :
  get_state_prices sample_site (National.rows_of_payload al_ak_payload) w0 = (Ok [], w0).
Proof.
  apply sparse_payload_resolves_nothing.
  intros entry [<-|[<-|[]]]; apply Nat.ltb_lt; reflexivity.
Defined.

Lemma tx_resolvable : resolvable tx_row "TX" "Texas" "http://x/tx".
Proof. repeat split; [cbn; lia|discriminate]. Qed.

Lemma missing_map_script_skips_state_witness :
  get_state_prices no_map_site ([dc_row] ++ tx_row :: [["PR"]]) w0
  = state_loop no_map_site [["PR"]] [] (requested w0 ["http://x/tx"]).
Proof.
  apply (missing_map_script_skips_state no_map_site [dc_row] [["PR"]] tx_row
           "TX" "Texas" "http://x/tx" "<tx>" [] w0 w0);
    [reflexivity|exact tx_resolvable|reflexivity|reflexivity].
Defined.

Lemma unreachable_state_page_aborts_witness :
  get_state_prices root_only_site ([dc_row] ++ tx_row :: [il_row]) w0
  = (Raise TransportError, requested w0 ["http://x/tx"]).
Proof.
  apply (unreachable_state_page_aborts root_only_site [dc_row] [il_row] tx_row
           "TX" "Texas" "http://x/tx" [] w0 w0 TransportError);
    [reflexivity|exact tx_resolvable|reflexivity].
Defined.

Lemma unusable_data_script_aborts_witness :
  get_state_prices no_data_site ([] ++ tx_row :: [il_row]) w0
  = (Raise TransportError, requested w0 ["http://x/tx"; tx_data_url]).
Proof.
  apply (unusable_data_script_aborts no_data_site [] [il_row] tx_row
           "TX" "Texas" "http://x/tx" "<tx>" tx_data_url [] w0 w0 TransportError);
    [reflexivity|exact tx_resolvable|reflexivity|reflexivity|now left].
Defined.

Lemma county_that_is_no_record_raises_witness :
  county_rows "IL" "Illinois"
    (VDict [("1", VDict [("name", VStr "Cook")]); ("2", VStr "n/a")])
  = Raise AttributeError.
Proof.
  apply county_that_is_no_record_raises. reflexivity.
Defined.

Lemma at_most_two_requests_per_state_witness :
  exists urls,
    requests (requested w0 ["http://x/tx"; tx_data_url; "http://x/il"; il_data_url])
      = requests w0 ++ urls
    /\ length urls <= 2 * length [tx_row; il_row].
Proof.
  apply (at_most_two_requests_per_state sample_site [tx_row; il_row] w0
           (requested w0 ["http://x/tx"; tx_data_url; "http://x/il"; il_data_url])
           (Ok il_county_rows)).
  reflexivity.
Defined.

Lemma first_matching_line_decides_witness :
  load_map_data sample_site il_data = json_loads sample_site (strip il_json).
Proof.
  apply (first_matching_line_decides sample_site il_data
           ["var cfg = {"] ["};"] ("map_data: " ++ il_json ++ ", groups: {}")%string
           il_json).
  - reflexivity.
  - intros l [<-|[]]. reflexivity.
  - reflexivity.
  - reflexivity.
Defined.

Lemma captured_text_opens_with_brace_witness :
  exists t, strip "{ }" = String "{"%char t.
Proof.
  apply (captured_text_opens_with_brace "var map_data : { }, groups : []" "{ }").
  reflexivity.
Defined.

End StateMoreSamples.

(** ** The writer: what the text looks like, how texts compose *)

Section CsvMore.
Import Str Csv.

Lemma writerows_app (a b : list (list string)) :
  writerows (a ++ b) = (writerows a ++ writerows b)%string.
Proof.
  induction a as [|r a IH]; [reflexivity|].
  cbn [app writerows]. now rewrite IH, append_assoc.
Qed.


Lemma join_fields_plain (fs : list string) :
  Forall (fun f => needs_quotes f = false) fs ->
  join_fields fs = String.concat "," fs.
Proof.
  induction 1 as [|f fs Hf Hfs IH]; [reflexivity|].
  cbn [join_fields String.concat]. unfold join_append. rewrite Hf.
  destruct fs as [|g fs]; [reflexivity|]. now rewrite IH.
Qed.

(** X16.  A row whose fields hold no comma, double quote, carriage
    return or newline is written as it stands: the fields joined by
    commas and CR LF, without a quote.  The one exception is the row
    made of a single empty field. *)
Theorem plain_row_written_verbatim (fs : list string) :
  Forall (fun f => needs_quotes f = false) fs ->
  fs <> [EmptyString] ->
  writerow fs = (String.concat "," fs ++ lineterminator)%string.
Proof.
  intros Hplain Hne. unfold writerow. rewrite (join_fields_plain fs Hplain).
  destruct fs as [|f rest]; [reflexivity|].
  destruct (String.eqb_spec (String.concat "," (f :: rest)) "") as [He|_];
    [|reflexivity].
  rewrite <- (join_fields_plain _ Hplain) in He.
  apply join_fields_empty in He as [-> ->]. now contradiction Hne.
Qed.

Lemma plain_row_written_verbatim_witness :
  writerow ["TX"; "Texas"; "2.99"; "http://x/tx"]
  = (String.concat "," ["TX"; "Texas"; "2.99"; "http://x/tx"] ++ lineterminator)%string.
Proof.
  apply plain_row_written_verbatim.
  - repeat constructor.
  - discriminate.
Defined.

End CsvMore.

(** ** The file system: rewriting a file, other files, made directories *)

Section DiskMore.
Import Str.

Lemma node_eqb_eq (a b : FS.node) : FS.node_eqb a b = true -> a = b.
Proof.
  revert b. induction a as [|x a IH]; intros [|y b] H; try discriminate H.
  - reflexivity.
  - cbn in H. apply andb_prop in H as [Hx Hab].
    apply String.eqb_eq in Hx. apply IH in Hab. now subst.
Qed.

Lemma node_eqb_neq (a b : FS.node) : a <> b -> FS.node_eqb a b = false.
Proof.
  intro H. destruct (FS.node_eqb a b) eqn:Hab; [|reflexivity].
  now apply node_eqb_eq in Hab.
Qed.

Lemma proper_prefixes_shorter (n : FS.node) :
  forall m, In m (FS.proper_prefixes n) -> length m < length n.
Proof.
  induction n as [|c n IH]; intros m H; [destruct H|].
  cbn [FS.proper_prefixes] in H. destruct H as [<-|H]; [cbn; lia|].
  apply in_map_iff in H as (m' & <- & Hm'). cbn [length].
  specialize (IH m' Hm'). lia.
Qed.

Lemma existsb_false {A} (f : A -> bool) (xs : list A) :
  existsb f xs = false <-> (forall x, In x xs -> f x = false).
Proof.
  induction xs as [|x xs IH]; cbn [existsb].
  - split; [intros _ y []|reflexivity].
  - rewrite orb_false_iff, IH. split.
    + intros [Hx Hxs] y [<-|Hy]; auto.
    + intro H. split; [apply H; now left|intros y Hy; apply H; now right].
Qed.

(** A write succeeds exactly under these three conditions. *)
Lemma write_file_succeeds (fs : FS.filesys) (p text : string) :
  FS.resolve p <> [] ->
  FS.is_dir fs (FS.resolve p) = false ->
  (forall d, In d (FS.proper_prefixes (FS.resolve p)) -> FS.is_file fs d = false) ->
  FS.is_dir fs (removelast (FS.resolve p)) = true ->
  FS.write_file fs p text
  = Ok {| FS.dirs := FS.dirs fs; FS.files := (FS.resolve p, text) :: FS.files fs |}.
Proof.
  intros Hn Hd Hf Hp. unfold FS.write_file.
  destruct (FS.resolve p) as [|c n] eqn:Hr; [now contradiction Hn|].
  apply existsb_false in Hf. now rewrite Hd, Hf, Hp.
Qed.

Lemma write_file_conditions (fs fs' : FS.filesys) (p text : string) :
  FS.write_file fs p text = Ok fs' ->
  FS.resolve p <> []
  /\ FS.is_dir fs (FS.resolve p) = false
  /\ (forall d, In d (FS.proper_prefixes (FS.resolve p)) -> FS.is_file fs d = false)
  /\ FS.is_dir fs (removelast (FS.resolve p)) = true.
Proof.
  unfold FS.write_file.
  destruct (FS.resolve p) as [|c n] eqn:Hr; [discriminate|].
  destruct (FS.is_dir fs (c :: n)) eqn:Hd; [discriminate|].
  destruct (existsb (FS.is_file fs) (FS.proper_prefixes (c :: n))) eqn:Hf;
    [discriminate|].
  destruct (FS.is_dir fs (removelast (c :: n))) eqn:Hp; [|discriminate].
  intros _. repeat split; try assumption; [discriminate|].
  now apply existsb_false.
Qed.





End DiskMore.

(** ** Paths, made directories, and a whole run *)

Section PathFacts.
Import Str.

Lemma split_app_sep (sep : ascii) (a b : string) :
  split sep (a ++ String sep b)%string = split sep a ++ split sep b.
Proof.
  induction a as [|c a IH]; cbn [append split].
  - now rewrite Ascii.eqb_refl.
  - destruct (Ascii.eqb c sep); [now rewrite IH|].
    rewrite IH. destruct (split sep a) as [|h t] eqn:Ha; [|reflexivity].
    now apply split_not_nil in Ha.
Qed.

Lemma resolve_app_slash (a b : string) :
  FS.resolve (a ++ String FS.slash b)%string = FS.resolve a ++ FS.resolve b.
Proof. unfold FS.resolve. now rewrite split_app_sep, filter_app. Qed.

Lemma split_no_sep (sep : ascii) (s : string) :
  count_char sep s = 0 -> split sep s = [s].
Proof.
  induction s as [|c s IH]; [reflexivity|].
  cbn [count_char split]. destruct (Ascii.eqb c sep); [discriminate|].
  intro H. now rewrite (IH H).
Qed.

Lemma count_char_app (c : ascii) (a b : string) :
  count_char c (a ++ b)%string = count_char c a + count_char c b.
Proof.
  induction a as [|d a IH]; [reflexivity|].
  cbn [append count_char]. rewrite IH. lia.
Qed.

(** The file name made from a timestamp without a slash is one
    component. *)
Lemma resolve_file_name (timestamp : string) :
  count_char FS.slash timestamp = 0 ->
  FS.resolve (timestamp ++ ".csv")%string = [(timestamp ++ ".csv")%string].
Proof.
  intro H. unfold FS.resolve. rewrite split_no_sep.
  - destruct timestamp; reflexivity.
  - rewrite count_char_app, H. reflexivity.
Qed.

Lemma upto_last_slash_trailing (s : string) :
  FS.upto_last_slash (s ++ "/")%string = (s ++ "/")%string.
Proof.
  induction s as [|c s IH]; [reflexivity|].
  cbn [append FS.upto_last_slash]. rewrite IH.
  destruct s; reflexivity.
Qed.

Lemma rstrip_slashes_trailing (s : string) :
  FS.rstrip_slashes (s ++ "/")%string = FS.rstrip_slashes s.
Proof.
  induction s as [|c s IH]; [reflexivity|].
  cbn [append FS.rstrip_slashes]. now rewrite IH.
Qed.

Lemma rstrip_slashes_letter (s : string) (c : ascii) :
  Ascii.eqb c FS.slash = false ->
  FS.rstrip_slashes (s ++ String c "")%string = (s ++ String c "")%string.
Proof.
  intro H. induction s as [|d s IH].
  - cbn. now rewrite H.
  - cbn [append FS.rstrip_slashes]. rewrite IH. destruct s; reflexivity.
Qed.

(** [os.path.dirname] of a directory path that ends with one slash
    after a name drops that slash. *)
Lemma dirname_of_directory (base name : string) (c : ascii) :
  Ascii.eqb c FS.slash = false ->
  FS.dirname (base ++ "/" ++ name ++ String c "/")%string
  = (base ++ "/" ++ name ++ String c "")%string.
Proof.
  intro H. unfold FS.dirname.
  replace (base ++ "/" ++ name ++ String c "/")%string
    with ((base ++ "/" ++ name ++ String c "") ++ "/")%string
    by (now rewrite !append_assoc).
  rewrite upto_last_slash_trailing, rstrip_slashes_trailing.
  replace (base ++ "/" ++ name ++ String c "")%string
    with ((base ++ "/" ++ name) ++ String c "")%string
    by (now rewrite !append_assoc).
  rewrite (rstrip_slashes_letter _ c H).
  destruct (base ++ "/" ++ name)%string; reflexivity.
Qed.

Lemma dirname_national (base : string) :
  FS.dirname (base ++ "/national/")%string = (base ++ "/national")%string.
Proof. exact (dirname_of_directory base "nationa" "l" eq_refl). Qed.

Lemma dirname_states (base : string) :
  FS.dirname (base ++ "/states/")%string = (base ++ "/states")%string.
Proof. exact (dirname_of_directory base "state" "s" eq_refl). Qed.

End PathFacts.

Section MakedirsFacts.

Lemma is_file_files (fs fs' : FS.filesys) (n : FS.node) :
  FS.files fs' = FS.files fs -> FS.is_file fs' n = FS.is_file fs n.
Proof. unfold FS.is_file. now intros ->. Qed.

Lemma is_dir_added (fs : FS.filesys) (d n : FS.node) :
  FS.is_dir {| FS.dirs := d :: FS.dirs fs; FS.files := FS.files fs |} n = true ->
  n = d \/ FS.is_dir fs n = true.
Proof.
  destruct n as [|c n]; [now right|]. cbn [FS.is_dir FS.dirs existsb].
  intro H. apply orb_prop in H as [H|H]; [left; now apply node_eqb_eq|now right].
Qed.

Lemma is_dir_kept (fs : FS.filesys) (d n : FS.node) :
  FS.is_dir fs n = true ->
  FS.is_dir {| FS.dirs := d :: FS.dirs fs; FS.files := FS.files fs |} n = true.
Proof.
  destruct n as [|c n]; [trivial|]. cbn [FS.is_dir FS.dirs existsb].
  intros ->. apply orb_true_r.
Qed.

(** What making directories keeps: the files, the directories that
    were there; and it adds nothing deeper than the path. *)
Lemma mkdirs_from_keeps (rest : FS.node) :
  forall fs done fs',
    FS.mkdirs_from fs done rest = Ok fs' ->
    FS.files fs' = FS.files fs
    /\ (forall n, FS.is_dir fs n = true -> FS.is_dir fs' n = true)
    /\ (forall n, FS.is_dir fs' n = true ->
          FS.is_dir fs n = true \/ length n <= length done + length rest).
Proof.
  induction rest as [|c rest IH]; intros fs done fs' H.
  - injection H as <-. repeat split; auto.
  - cbn [FS.mkdirs_from] in H.
    destruct (FS.is_file fs (done ++ [c])); [discriminate|].
    destruct (FS.is_dir fs (done ++ [c])) eqn:Hd.
    + destruct (IH _ _ _ H) as (Hf & Hk & Hn). repeat split; auto.
      intros n Hin. destruct (Hn n Hin) as [?|Hl]; [now left|right].
      rewrite length_app in Hl. cbn [length] in *. lia.
    + destruct (IH _ _ _ H) as (Hf & Hk & Hn). repeat split.
      * exact Hf.
      * intros n Hin. apply Hk. now apply is_dir_kept.
      * intros n Hin. destruct (Hn n Hin) as [Hmid|Hl].
        -- apply is_dir_added in Hmid as [->|?]; [right|now left].
           rewrite length_app. cbn [length]. lia.
        -- right. rewrite length_app in Hl. cbn [length] in *. lia.
Qed.

(** Making directories succeeds when no regular file stands at a
    prefix of the path. *)
Lemma mkdirs_from_succeeds (rest : FS.node) :
  forall fs done,
    (forall pre post, rest = pre ++ post -> pre <> [] ->
       FS.is_file fs (done ++ pre) = false) ->
    exists fs', FS.mkdirs_from fs done rest = Ok fs'.
Proof.
  induction rest as [|c rest IH]; intros fs done H; [now exists fs|].
  cbn [FS.mkdirs_from].
  rewrite (H [c] rest eq_refl) by discriminate.
  assert (Hnext : forall fs1, FS.files fs1 = FS.files fs ->
            exists fs', FS.mkdirs_from fs1 (done ++ [c]) rest = Ok fs').
  { intros fs1 Hf. apply IH. intros pre post -> Hpre.
    rewrite (is_file_files fs fs1 _ Hf), <- app_assoc.
    apply (H (c :: pre) post eq_refl). discriminate. }
  destruct (FS.is_dir fs (done ++ [c])); now apply Hnext.
Qed.

(** The prefixes of a path that was made are directories, and were not
    files. *)
Lemma mkdirs_from_made (rest : FS.node) :
  forall fs done fs',
    FS.mkdirs_from fs done rest = Ok fs' ->
    forall pre post, rest = pre ++ post -> pre <> [] ->
      FS.is_dir fs' (done ++ pre) = true /\ FS.is_file fs (done ++ pre) = false.
Proof.
  induction rest as [|c rest IH]; intros fs done fs' H pre post Hsplit Hpre.
  - destruct pre; [now contradiction Hpre|discriminate].
  - destruct pre as [|x pre]; [now contradiction Hpre|].
    cbn [app] in Hsplit. injection Hsplit as -> ->. clear Hpre.
    cbn [FS.mkdirs_from] in H.
    destruct (FS.is_file fs (done ++ [x])) eqn:Hfile; [discriminate|].
    replace (done ++ x :: pre) with ((done ++ [x]) ++ pre)
      by now rewrite <- app_assoc.
    destruct pre as [|y pre].
    + rewrite app_nil_r. split; [|exact Hfile].
      destruct (FS.is_dir fs (done ++ [x])) eqn:Hd.
      * now apply (mkdirs_from_keeps _ _ _ _ H).
      * apply (mkdirs_from_keeps _ _ _ _ H).
        destruct (done ++ [x]) as [|a n] eqn:Hx; [reflexivity|].
        cbn. now rewrite String.eqb_refl, node_eqb_refl.
    + destruct (FS.is_dir fs (done ++ [x])).
      * apply (IH _ _ _ H (y :: pre) post eq_refl). discriminate.
      * destruct (IH _ _ _ H (y :: pre) post eq_refl) as [Hd Hf]; [discriminate|].
        split; [exact Hd|exact Hf].
Qed.

Lemma mkdirs_from_present (rest : FS.node) :
  forall fs done,
    (forall pre post, rest = pre ++ post -> pre <> [] ->
       FS.is_dir fs (done ++ pre) = true /\ FS.is_file fs (done ++ pre) = false) ->
    FS.mkdirs_from fs done rest = Ok fs.
Proof.
  induction rest as [|c rest IH]; intros fs done H; [reflexivity|].
  cbn [FS.mkdirs_from].
  destruct (H [c] rest eq_refl) as [-> ->]; [discriminate|].
  apply IH. intros pre post -> Hpre. rewrite <- app_assoc.
  apply (H (c :: pre) post eq_refl). discriminate.
Qed.

(** X19.  [os.makedirs] with [exist_ok] can be called again: after a
    call that succeeded, the same call succeeds and changes nothing. *)
Theorem makedirs_again (fs fs' : FS.filesys) (p : string) :
  FS.makedirs fs p = Ok fs' -> FS.makedirs fs' p = Ok fs'.
Proof.
  unfold FS.makedirs. destruct (String.eqb p ""); [discriminate|].
  intro H. apply mkdirs_from_present. intros pre post Hsplit Hpre.
  destruct (mkdirs_from_made _ _ _ _ H pre post Hsplit Hpre) as [Hd Hf].
  split; [exact Hd|].
  now rewrite (is_file_files fs fs' _ (proj1 (mkdirs_from_keeps _ _ _ _ H))).
Qed.

Lemma makedirs_again_witness :
  FS.makedirs
    {| FS.dirs := [["prices"]; ["prices"; "national"]]; FS.files := [] |}
    "prices//national"
  = Ok {| FS.dirs := [["prices"]; ["prices"; "national"]]; FS.files := [] |}.
Proof.
  apply (makedirs_again {| FS.dirs := [["prices"]; ["prices"; "national"]]; FS.files := [] |}).
  reflexivity.
Defined.

Lemma makedirs_keeps (fs fs' : FS.filesys) (p : string) :
  FS.makedirs fs p = Ok fs' ->
  FS.files fs' = FS.files fs
  /\ (forall n, FS.is_dir fs n = true -> FS.is_dir fs' n = true)
  /\ FS.is_dir fs' (FS.resolve p) = true.
Proof.
  intro H. split; [|split].
  - unfold FS.makedirs in H. destruct (String.eqb p ""); [discriminate|].
    apply (mkdirs_from_keeps _ _ _ _ H).
  - unfold FS.makedirs in H. destruct (String.eqb p ""); [discriminate|].
    apply (mkdirs_from_keeps _ _ _ _ H).
  - exact (makedirs_is_dir fs fs' p H).
Qed.

(** X20.  [os.makedirs] keeps every file and every directory that was
    there, and when it returns the directory it was asked for exists. *)
Theorem makedirs_only_adds (fs fs' : FS.filesys) (p : string) :
  FS.makedirs fs p = Ok fs' ->
  FS.files fs' = FS.files fs
  /\ (forall n, FS.is_dir fs n = true -> FS.is_dir fs' n = true)
  /\ FS.is_dir fs' (FS.resolve p) = true.
Proof.
  intro H. pose proof (makedirs_is_dir fs fs' p H) as Hdir.
  unfold FS.makedirs in H. destruct (String.eqb p ""); [discriminate|].
  destruct (mkdirs_from_keeps _ _ _ _ H) as (Hfiles & Hmono & _).
  now repeat split.
Qed.

(** A disk with one directory and one file in it. *)
Definition old_disk : FS.filesys :=
  {| FS.dirs := [["old"]]; FS.files := [(["old"; "a.csv"], "x")] |}.

Definition old_disk_with_prices : FS.filesys :=
  {| FS.dirs := [["prices"; "states"]; ["prices"]; ["old"]];
     FS.files := [(["old"; "a.csv"], "x")] |}.

Lemma makedirs_only_adds_witness :
  FS.files old_disk_with_prices = FS.files old_disk
  /\ (forall n, FS.is_dir old_disk n = true -> FS.is_dir old_disk_with_prices n = true)
  /\ FS.is_dir old_disk_with_prices (FS.resolve "prices//states") = true.
Proof.
  apply (makedirs_only_adds old_disk old_disk_with_prices "prices//states").
  reflexivity.
Defined.

End MakedirsFacts.

Section WholeRun.
Import Str.

Lemma in_proper_prefixes (pre post : FS.node) :
  post <> [] -> In pre (FS.proper_prefixes (pre ++ post)).
Proof.
  intro H. induction pre as [|c pre IH].
  - destruct post; [now contradiction H|]. now left.
  - cbn [app FS.proper_prefixes]. right. now apply in_map.
Qed.

(** Nothing stands where a file is to be written: no regular file at a
    prefix of its node, no directory at the node. *)
Definition nothing_in_the_way (fs : FS.filesys) (n : FS.node) : Prop :=
  (forall d, In d (FS.proper_prefixes n) -> FS.is_file fs d = false)
  /\ FS.is_dir fs n = false.

Lemma makedirs_succeeds (fs : FS.filesys) (p : string) (f : string) :
  p <> EmptyString ->
  (forall d, In d (FS.proper_prefixes (FS.resolve p ++ [f])) -> FS.is_file fs d = false) ->
  exists fs', FS.makedirs fs p = Ok fs'.
Proof.
  intros Hp H. unfold FS.makedirs.
  apply String.eqb_neq in Hp. rewrite Hp.
  apply mkdirs_from_succeeds. intros pre post Hsplit Hpre. cbn [app].
  apply H. rewrite Hsplit, <- app_assoc. apply in_proper_prefixes.
  now destruct post.
Qed.

Lemma makedirs_bound (fs fs' : FS.filesys) (p : string) (n : FS.node) :
  FS.makedirs fs p = Ok fs' ->
  FS.is_dir fs' n = true ->
  FS.is_dir fs n = true \/ length n <= length (FS.resolve p).
Proof.
  unfold FS.makedirs. destruct (String.eqb p ""); [discriminate|].
  intros H Hn. exact (proj2 (proj2 (mkdirs_from_keeps _ _ _ _ H)) n Hn).
Qed.

(** Two directories of the same depth, then a file of the same name in
    each. *)
Lemma two_directories_two_files (fs : FS.filesys) (dN dS pN pS : string)
    (Nn Sn : FS.node) (f tn ts : string) :
  dN <> EmptyString -> dS <> EmptyString ->
  FS.resolve dN = Nn -> FS.resolve dS = Sn ->
  FS.resolve pN = Nn ++ [f] -> FS.resolve pS = Sn ++ [f] ->
  length Nn = length Sn -> Nn <> Sn ->
  nothing_in_the_way fs (Nn ++ [f]) ->
  nothing_in_the_way fs (Sn ++ [f]) ->
  exists fs1 fs2 fs3 fs4,
    FS.makedirs fs dN = Ok fs1
    /\ FS.makedirs fs1 dS = Ok fs2
    /\ FS.write_file fs2 pN tn = Ok fs3
    /\ FS.write_file fs3 pS ts = Ok fs4
    /\ FS.read_file fs4 pN = Some tn
    /\ FS.read_file fs4 pS = Some ts.
Proof.
  intros HdN HdS HN HS HpN HpS Hlen Hneq [HfN HnN] [HfS HnS].
  destruct (makedirs_succeeds fs dN f HdN) as [fs1 H1]; [now rewrite HN|].
  destruct (makedirs_keeps _ _ _ H1) as (Hfiles1 & Hmono1 & Hdir1).
  destruct (makedirs_succeeds fs1 dS f HdS) as [fs2 H2].
  { rewrite HS. intros d Hd. rewrite (is_file_files fs fs1 d Hfiles1). now apply HfS. }
  destruct (makedirs_keeps _ _ _ H2) as (Hfiles2 & Hmono2 & Hdir2).
  assert (Hfiles : FS.files fs2 = FS.files fs) by congruence.
  assert (Hdeep : forall n, length n = S (length Nn) ->
            FS.is_dir fs n = false -> FS.is_dir fs2 n = false).
  { intros n Hl Hn. destruct (FS.is_dir fs2 n) eqn:H; [|reflexivity].
    destruct (makedirs_bound _ _ _ _ H2 H) as [H'|H']; [|rewrite HS in H'; lia].
    destruct (makedirs_bound _ _ _ _ H1 H') as [H''|H'']; [congruence|].
    rewrite HN in H''. lia. }
  assert (HlN : length (Nn ++ [f]) = S (length Nn))
    by (rewrite length_app; cbn; lia).
  assert (HlS : length (Sn ++ [f]) = S (length Nn))
    by (rewrite length_app; cbn; lia).
  assert (H3 : FS.write_file fs2 pN tn
               = Ok {| FS.dirs := FS.dirs fs2;
                       FS.files := (Nn ++ [f], tn) :: FS.files fs2 |}).
  { rewrite write_file_succeeds; rewrite ?HpN.
    - reflexivity.
    - now destruct Nn.
    - now apply Hdeep.
    - intros d Hd. rewrite (is_file_files fs fs2 d Hfiles). now apply HfN.
    - rewrite removelast_last. apply Hmono2. now rewrite <- HN. }
  set (fs3 := {| FS.dirs := FS.dirs fs2; FS.files := (Nn ++ [f], tn) :: FS.files fs2 |}) in *.
  assert (H4 : FS.write_file fs3 pS ts
               = Ok {| FS.dirs := FS.dirs fs3;
                       FS.files := (Sn ++ [f], ts) :: FS.files fs3 |}).
  { rewrite write_file_succeeds; rewrite ?HpS.
    - reflexivity.
    - now destruct Sn.
    - change (FS.is_dir fs3 (Sn ++ [f])) with (FS.is_dir fs2 (Sn ++ [f])).
      now apply Hdeep.
    - intros d Hd. unfold FS.is_file, fs3. cbn [FS.files FS.lookup].
      rewrite node_eqb_neq.
      + fold (FS.is_file fs2 d). rewrite (is_file_files fs fs2 d Hfiles).
        now apply HfS.
      + intros <-. apply proper_prefixes_shorter in Hd. lia.
    - rewrite removelast_last.
      change (FS.is_dir fs3 Sn) with (FS.is_dir fs2 Sn). now rewrite <- HS. }
  exists fs1, fs2, fs3, {| FS.dirs := FS.dirs fs3;
                           FS.files := (Sn ++ [f], ts) :: FS.files fs3 |}.
  repeat split; try assumption.
  - unfold FS.read_file. rewrite HpN. cbn [FS.files FS.lookup fs3].
    rewrite node_eqb_neq, node_eqb_refl; [reflexivity|].
    intro Heq. apply app_inv_tail in Heq. now apply Hneq.
  - unfold FS.read_file. rewrite HpS. cbn [FS.files FS.lookup].
    now rewrite node_eqb_refl.
Qed.

Lemma fetch_and_parse_quiet (E : env) (w : world) o (w' : world) :
  fetch_and_parse E w = (o, w') -> disk w' = disk w /\ stdout w' = stdout w.
Proof.
  unfold fetch_and_parse, State.get_state_prices. intro H. run_monad.
  destruct (http_get E (requests w) base_url) as [page|e];
    [|injection H as _ <-; now split].
  destruct (State.state_loop E _ [] _) as [[sp|e] w1] eqn:Hloop;
    apply state_loop_disk in Hloop; cbn [disk stdout] in Hloop;
    injection H as _ <-; exact Hloop.
Qed.

(** The name of both output files, and the places [main] writes to. *)
Definition csv_name (E : env) : string := (utc_now_isoformat E ++ ".csv")%string.

Definition national_dir (a : args) : FS.node := FS.resolve (filepath a) ++ ["national"].
Definition states_dir (a : args) : FS.node := FS.resolve (filepath a) ++ ["states"].

Definition national_file (E : env) (a : args) : string :=
  ((filepath a ++ "/national/") ++ "/" ++ utc_now_isoformat E ++ ".csv")%string.
Definition states_file (E : env) (a : args) : string :=
  ((filepath a ++ "/states/") ++ "/" ++ utc_now_isoformat E ++ ".csv")%string.

Lemma resolve_output_file (base dir timestamp : string) :
  count_char FS.slash timestamp = 0 ->
  FS.resolve dir = [dir] ->
  FS.resolve ((base ++ String FS.slash (dir ++ "/")) ++ "/" ++ timestamp ++ ".csv")%string
  = (FS.resolve base ++ [dir]) ++ [(timestamp ++ ".csv")%string].
Proof.
  intros Ht Hd.
  change ("/" ++ timestamp ++ ".csv")%string
    with (String FS.slash (timestamp ++ ".csv")%string).
  rewrite resolve_app_slash, resolve_app_slash, (resolve_file_name _ Ht).
  replace (dir ++ "/")%string with (dir ++ String FS.slash "")%string by reflexivity.
  rewrite resolve_app_slash, Hd. reflexivity.
Qed.



End WholeRun.

(** ** Captures of the two patterns, and a root page without the marker *)

Section CaptureFacts.
Import Str National State.

(** No newline in [s]. *)
Fixpoint one_line (s : string) : bool :=
  match s with
  | EmptyString => true
  | String c s' => negb (Ascii.eqb c newline) && one_line s'
  end.

Lemma before_last_quote_none (tail : string) :
  quote_free tail = true -> before_last_quote tail = None.
Proof.
  induction tail as [|c t IH]; [reflexivity|].
  cbn [quote_free before_last_quote]. intro H.
  apply andb_prop in H as [H Ht]. apply andb_prop in H as [Hq Hn].
  apply negb_true_iff in Hq, Hn. now rewrite Hn, (IH Ht), Hq.
Qed.

Lemma before_last_quote_last (body tail : string) :
  one_line body = true ->
  quote_free tail = true ->
  before_last_quote (body ++ String dquote tail)%string = Some body.
Proof.
  intros Hb Ht. induction body as [|c b IH].
  - cbn [append before_last_quote].
    rewrite (before_last_quote_none tail Ht). reflexivity.
  - cbn [one_line] in Hb. apply andb_prop in Hb as [Hn Hb].
    apply negb_true_iff in Hn.
    cbn [append before_last_quote]. now rewrite Hn, (IH Hb).
Qed.

(** X22.  The group of the national pattern is greedy: on a marker line
    it runs from the quote after the equals sign to the last double
    quote of the line, double quotes in between included. *)
Theorem national_capture_is_greedy (body tail : string) :
  one_line body = true ->
  quote_free tail = true ->
  placestxt_search (marker ++ " = " ++ String dquote (body ++ String dquote tail))%string
  = Some body.
Proof.
  intros Hb Ht. unfold marker. simpl.
  unfold placestxt_at. simpl.
  now rewrite (before_last_quote_last body tail Hb Ht).
Qed.

Lemma national_capture_is_greedy_witness :
  placestxt_search
    (marker ++ " = "
       ++ String dquote (("AL,a,1,u;" ++ String dquote "; var t = " ++ String dquote "x")
                           ++ String dquote ";"))%string
  = Some ("AL,a,1,u;" ++ String dquote "; var t = " ++ String dquote "x")%string.
Proof.
  apply (national_capture_is_greedy
           ("AL,a,1,u;" ++ String dquote "; var t = " ++ String dquote "x")%string ";");
    reflexivity.
Defined.

(** No suffix of [body], followed by [tail], starts the end of the
    pattern; and [body] has no newline. *)
Fixpoint no_early_groups (body tail : string) : bool :=
  match body with
  | EmptyString => true
  | String c body' =>
      negb (groups_follow (body ++ tail)%string)
      && negb (Ascii.eqb c newline)
      && no_early_groups body' tail
  end.

Lemma lazy_body_first (body rest : string) :
  no_early_groups body (", groups" ++ rest)%string = true ->
  lazy_body (body ++ ", groups" ++ rest)%string = Some body.
Proof.
  induction body as [|c b IH]; [reflexivity|].
  cbn [no_early_groups]. intro H.
  apply andb_prop in H as [H Hb]. apply andb_prop in H as [Hg Hn].
  apply negb_true_iff in Hg, Hn.
  cbn [append] in *. cbn [lazy_body]. now rewrite Hg, Hn, (IH Hb).
Qed.

(** X23.  The group of the county pattern is lazy: on a line that sets
    [map_data] to an object followed by [, groups], it is the object up
    to the first such place. *)
Theorem county_capture_is_lazy (body rest : string) :
  no_early_groups body (", groups" ++ rest)%string = true ->
  map_data_search ("map_data: {" ++ body ++ ", groups" ++ rest)%string
  = Some (String "{"%char body).
Proof.
  intro H. pose proof (lazy_body_first body rest H) as Hl.
  simpl in Hl. simpl. unfold map_data_at. simpl. now rewrite Hl.
Qed.

Lemma county_capture_is_lazy_witness :
  map_data_search ("map_data: {" ++ "a, b}" ++ ", groups" ++ ": {}, groups: 1")%string
  = Some (String "{"%char "a, b}").
Proof.
  apply (county_capture_is_lazy "a, b}" ": {}, groups: 1"). reflexivity.
Defined.

(** X24.  When the root page is served and none of its script lines
    contains the marker, fetching and parsing end well with no national
    row, no county row, and the one request for the root page. *)
Theorem markerless_root_page (E : env) (w : world) (page : string) :
  http_get E (requests w) base_url = Ok page ->
  (forall s line, In s (html_scripts E page) -> In line s ->
     contains marker line = false) ->
  fetch_and_parse E w = (Ok ([], []), requested w [base_url]).
Proof.
  intros Hpage Hno. unfold fetch_and_parse. run_monad. rewrite Hpage.
  assert (Hnat : get_national_prices (html_scripts E page) = []).
  { rewrite get_national_prices_find, find_none; [reflexivity|].
    intros line Hin. apply in_concat in Hin as (s & Hs & Hline).
    apply in_rev in Hs. unfold hit. now rewrite (Hno s line Hs Hline). }
  rewrite Hnat. reflexivity.
Qed.

(** A root page whose scripts say nothing of prices. *)
Definition redesigned_site : env :=
  static_site [(base_url, "<new>")]
    [("<new>", [["var a = 1;"]; ["render();"]])] [] [].

Lemma markerless_root_page_witness :
  fetch_and_parse redesigned_site w0 = (Ok ([], []), requested w0 [base_url]).
Proof.
  apply (markerless_root_page redesigned_site w0 "<new>"); [reflexivity|].
  intros s line [<-|[<-|[]]] [<-|[]]; reflexivity.
Defined.

End CaptureFacts.
